(** * Script-mixing detector of rspamd's chartable plugin

    A shallow embedding of [src/plugins/chartable.c]: the confusable
    table, the two word scorers (the Unicode one and the byte one), the
    per-part, per-subject and per-hostname aggregation, and the module
    configuration.

    Conventions.
    - A [gdouble] is an exact rational ([Q]): every penalty the code adds
      is [0.25] or [1.0 / n], and every comparison is against [4.0], [2.0]
      or the configured threshold, so rounding plays no part in what is
      proved below.
    - A [guint] is a [Z] in [0, 2^32) and its increment wraps.
    - A byte range ([begin], [len]) is a [list byte].
    - The library calls the plugin makes (ICU's character properties,
      GLib's validator, the tokenizer) are the fields of two classes; the
      general theorems hold for every instance. *)

From Stdlib Require Import Strings.String Strings.Byte.
From Stdlib Require Import ZArith QArith Qminmax List Bool Lia.
Import ListNotations.

#[local] Open Scope Z_scope.

(** ** Machine integers and bytes *)

Definition guint_max : Z := 2 ^ 32.

Definition guint_wrap (x : Z) : Z := x mod guint_max.

(** [x ++] on a [guint]. *)
Definition guint_inc (x : Z) : Z := guint_wrap (x + 1).

Definition byte_val (b : byte) : Z := Z.of_N (Byte.to_N b).

(** ** Collaborators outside the plugin *)

(** ICU's [unicode/uchar.h]: character properties and block codes. *)
Class UCharAPI : Type := {
  u_isalpha : Z -> bool;
  u_isdigit : Z -> bool;
  u_isupper : Z -> bool;
  ublock_getCode : Z -> Z
}.

(** Block codes of ICU's [UBlockCode] that the plugin names. *)
Definition UBLOCK_BASIC_LATIN : Z := 1.
Definition UBLOCK_COMBINING_DIACRITICAL_MARKS : Z := 7.
Definition UBLOCK_LATIN_EXTENDED_ADDITIONAL : Z := 38.

(** A word as the tokenizer hands it over ([rspamd_stat_token_t]):
    [begin] stands for the pair ([begin], [len]). *)
Record rspamd_stat_token_t : Type := {
  begin : list byte;
  flags : Z
}.

Definition len (w : rspamd_stat_token_t) : Z := Z.of_nat (length (begin w)).

(** Modelled from the spec: the flag bit of [libstat/stat_api.h], a header
    that is not among the sources; a word is "flagged as textual content"
    when this bit is set. *)
Definition RSPAMD_STAT_TOKEN_FLAG_TEXT : Z := Z.shiftl 1 0.

(** GLib's [g_utf8_validate] and rspamd's [rspamd_tokenize_text]; the
    tokenizer may return no array at all. *)
Class TextAPI : Type := {
  g_utf8_validate : list byte -> bool;
  rspamd_tokenize_text : list byte -> option (list rspamd_stat_token_t)
}.

(** ** Decoding one code point

    Modelled from the spec: [U8_NEXT] is a macro of ICU's [unicode/utf8.h],
    which is not among the sources.  It reads one code point of a
    well-formed UTF-8 sequence and advances past it; on an ill-formed or
    truncated sequence the code point is negative ([U_SENTINEL]).  The
    scorer leaves its loop on a negative code point, so how far the macro
    advances in that case is never observed. *)

Definition U_SENTINEL : Z := -1.

Definition in_range (lo hi x : Z) : bool := (lo <=? x) && (x <=? hi).

Definition U8_IS_TRAIL (t : Z) : bool := in_range 0x80 0xbf t.

Definition U8_LEAD3_T1_OK (c t : Z) : bool :=
  if c =? 0xe0 then in_range 0xa0 0xbf t
  else if c =? 0xed then in_range 0x80 0x9f t
  else U8_IS_TRAIL t.

Definition U8_LEAD4_T1_OK (c t : Z) : bool :=
  if c =? 0xf0 then in_range 0x90 0xbf t
  else if c =? 0xf4 then in_range 0x80 0x8f t
  else U8_IS_TRAIL t.

Definition u8_trail_bits (t : Z) : Z := Z.land t 0x3f.

Definition U8_NEXT (s : list byte) : Z * list byte :=
  match s with
  | [] => (U_SENTINEL, [])
  | b0 :: s1 =>
    let c := byte_val b0 in
    if c <? 0x80 then (c, s1)
    else if in_range 0xc2 0xdf c then
      match s1 with
      | b1 :: s2 =>
        let t1 := byte_val b1 in
        if U8_IS_TRAIL t1
        then (Z.lor (Z.shiftl (Z.land c 0x1f) 6) (u8_trail_bits t1), s2)
        else (U_SENTINEL, s1)
      | [] => (U_SENTINEL, s1)
      end
    else if in_range 0xe0 0xef c then
      match s1 with
      | b1 :: b2 :: s3 =>
        let t1 := byte_val b1 in
        let t2 := byte_val b2 in
        if U8_LEAD3_T1_OK c t1 && U8_IS_TRAIL t2
        then (Z.lor (Z.shiftl (Z.land c 0xf) 12)
                (Z.lor (Z.shiftl (u8_trail_bits t1) 6) (u8_trail_bits t2)), s3)
        else (U_SENTINEL, s1)
      | _ => (U_SENTINEL, s1)
      end
    else if in_range 0xf0 0xf4 c then
      match s1 with
      | b1 :: b2 :: b3 :: s4 =>
        let t1 := byte_val b1 in
        let t2 := byte_val b2 in
        let t3 := byte_val b3 in
        if U8_LEAD4_T1_OK c t1 && U8_IS_TRAIL t2 && U8_IS_TRAIL t3
        then (Z.lor (Z.shiftl (Z.land c 0x7) 18)
                (Z.lor (Z.shiftl (u8_trail_bits t1) 12)
                   (Z.lor (Z.shiftl (u8_trail_bits t2) 6) (u8_trail_bits t3))), s4)
        else (U_SENTINEL, s1)
      | _ => (U_SENTINEL, s1)
      end
    else (U_SENTINEL, s1)
  end.

(** ** The confusable table *)

Definition latin_confusable : list Z := [
  0x02028; 0x02029; 0x01680; 0x02000; 0x02001; 0x02002; 0x02003; 0x02004; 0x02005; 0x02006;
  0x02008; 0x02009; 0x0200a; 0x0205f; 0x000a0; 0x02007; 0x0202f; 0x007fa; 0x0fe4d; 0x0fe4e;
  0x0fe4f; 0x02010; 0x02011; 0x02012; 0x02013; 0x0fe58; 0x006d4; 0x02043; 0x002d7; 0x02212;
  0x02796; 0x02cba; 0x0060d; 0x0066b; 0x0201a; 0x000b8; 0x0a4f9; 0x0037e; 0x00903; 0x00a83;
  0x0ff1a; 0x00589; 0x00703; 0x00704; 0x016ec; 0x0fe30; 0x01803; 0x01809; 0x0205a; 0x005c3;
  0x002f8; 0x0a789; 0x02236; 0x002d0; 0x0a4fd; 0x0ff01; 0x001c3; 0x02d51; 0x00294; 0x00241;
  0x0097d; 0x013ae; 0x0a6eb; 0x1d16d; 0x02024; 0x00701; 0x00702; 0x0a60e; 0x10a50; 0x00660;
  0x006f0; 0x0a4f8; 0x0055d; 0x0ff07; 0x02018; 0x02019; 0x0201b; 0x02032; 0x02035; 0x0055a;
  0x005f3; 0x00060; 0x01fef; 0x0ff40; 0x000b4; 0x00384; 0x01ffd; 0x01fbd; 0x01fbf; 0x01ffe;
  0x002b9; 0x00374; 0x002c8; 0x002ca; 0x002cb; 0x002f4; 0x002bb; 0x002bd; 0x002bc; 0x002be;
  0x0a78c; 0x005d9; 0x007f4; 0x007f5; 0x0144a; 0x016cc; 0x16f51; 0x16f52; 0x0ff3b; 0x02768;
  0x02772; 0x03014; 0x0fd3e; 0x0ff3d; 0x02769; 0x02773; 0x03015; 0x0fd3f; 0x02774; 0x1d114;
  0x02775; 0x0204e; 0x0066d; 0x02217; 0x1031f; 0x01735; 0x02041; 0x02215; 0x02044; 0x02571;
  0x027cb; 0x029f8; 0x1d23a; 0x031d3; 0x03033; 0x02cc6; 0x030ce; 0x04e3f; 0x02f03; 0x0ff3c;
  0x0fe68; 0x02216; 0x027cd; 0x029f5; 0x029f9; 0x1d20f; 0x1d23b; 0x031d4; 0x04e36; 0x02f02;
  0x0a778; 0x002c4; 0x002c6; 0x016ed; 0x02795; 0x1029b; 0x02039; 0x0276e; 0x002c2; 0x1d236;
  0x01438; 0x016b2; 0x01400; 0x02e40; 0x030a0; 0x0a4ff; 0x0203a; 0x0276f; 0x002c3; 0x1d237;
  0x01433; 0x16f3f; 0x02053; 0x002dc; 0x01fc0; 0x0223c; 0x1d7d0; 0x1d7da; 0x1d7e4; 0x1d7ee;
  0x1d7f8; 0x0a75a; 0x001a7; 0x003e8; 0x0a644; 0x014bf; 0x0a6ef; 0x1d206; 0x1d7d1; 0x1d7db;
  0x1d7e5; 0x1d7ef; 0x1d7f9; 0x0a7ab; 0x0021c; 0x001b7; 0x0a76a; 0x02ccc; 0x00417; 0x004e0;
  0x16f3b; 0x118ca; 0x1d7d2; 0x1d7dc; 0x1d7e6; 0x1d7f0; 0x1d7fa; 0x013ce; 0x118af; 0x1d7d3;
  0x1d7dd; 0x1d7e7; 0x1d7f1; 0x1d7fb; 0x001bc; 0x118bb; 0x1d7d4; 0x1d7de; 0x1d7e8; 0x1d7f2;
  0x1d7fc; 0x02cd2; 0x00431; 0x013ee; 0x118d5; 0x1d212; 0x1d7d5; 0x1d7df; 0x1d7e9; 0x1d7f3;
  0x1d7fd; 0x104d2; 0x118c6; 0x00b03; 0x009ea; 0x00a6a; 0x1e8cb; 0x1d7d6; 0x1d7e0; 0x1d7ea;
  0x1d7f4; 0x1d7fe; 0x00223; 0x00222; 0x1031a; 0x00a67; 0x00b68; 0x009ed; 0x00d6d; 0x1d7d7;
  0x1d7e1; 0x1d7eb; 0x1d7f5; 0x1d7ff; 0x0a76e; 0x02cca; 0x118cc; 0x118ac; 0x118d6; 0x0237a;
  0x0ff41; 0x1d41a; 0x1d44e; 0x1d482; 0x1d4b6; 0x1d4ea; 0x1d51e; 0x1d552; 0x1d586; 0x1d5ba;
  0x1d5ee; 0x1d622; 0x1d656; 0x1d68a; 0x00251; 0x003b1; 0x1d6c2; 0x1d6fc; 0x1d736; 0x1d770;
  0x1d7aa; 0x00430; 0x0ff21; 0x1d400; 0x1d434; 0x1d468; 0x1d49c; 0x1d4d0; 0x1d504; 0x1d538;
  0x1d56c; 0x1d5a0; 0x1d5d4; 0x1d608; 0x1d63c; 0x1d670; 0x00391; 0x1d6a8; 0x1d6e2; 0x1d71c;
  0x1d756; 0x1d790; 0x00410; 0x013aa; 0x015c5; 0x0a4ee; 0x16f40; 0x102a0; 0x1d41b; 0x1d44f;
  0x1d483; 0x1d4b7; 0x1d4eb; 0x1d51f; 0x1d553; 0x1d587; 0x1d5bb; 0x1d5ef; 0x1d623; 0x1d657;
  0x1d68b; 0x00184; 0x0042c; 0x013cf; 0x015af; 0x0ff22; 0x0212c; 0x1d401; 0x1d435; 0x1d469;
  0x1d4d1; 0x1d505; 0x1d539; 0x1d56d; 0x1d5a1; 0x1d5d5; 0x1d609; 0x1d63d; 0x1d671; 0x0a7b4;
  0x00392; 0x1d6a9; 0x1d6e3; 0x1d71d; 0x1d757; 0x1d791; 0x00412; 0x013f4; 0x015f7; 0x0a4d0;
  0x10282; 0x102a1; 0x10301; 0x0ff43; 0x0217d; 0x1d41c; 0x1d450; 0x1d484; 0x1d4b8; 0x1d4ec;
  0x1d520; 0x1d554; 0x1d588; 0x1d5bc; 0x1d5f0; 0x1d624; 0x1d658; 0x1d68c; 0x01d04; 0x003f2;
  0x02ca5; 0x00441; 0x0abaf; 0x1043d; 0x1f74c; 0x118f2; 0x118e9; 0x0ff23; 0x0216d; 0x02102;
  0x0212d; 0x1d402; 0x1d436; 0x1d46a; 0x1d49e; 0x1d4d2; 0x1d56e; 0x1d5a2; 0x1d5d6; 0x1d60a;
  0x1d63e; 0x1d672; 0x003f9; 0x02ca4; 0x00421; 0x013df; 0x0a4da; 0x102a2; 0x10302; 0x10415;
  0x1051c; 0x0217e; 0x02146; 0x1d41d; 0x1d451; 0x1d485; 0x1d4b9; 0x1d4ed; 0x1d521; 0x1d555;
  0x1d589; 0x1d5bd; 0x1d5f1; 0x1d625; 0x1d659; 0x1d68d; 0x00501; 0x013e7; 0x0146f; 0x0a4d2;
  0x0216e; 0x02145; 0x1d403; 0x1d437; 0x1d46b; 0x1d49f; 0x1d4d3; 0x1d507; 0x1d53b; 0x1d56f;
  0x1d5a3; 0x1d5d7; 0x1d60b; 0x1d63f; 0x1d673; 0x013a0; 0x015de; 0x015ea; 0x0a4d3; 0x0212e;
  0x0ff45; 0x0212f; 0x02147; 0x1d41e; 0x1d452; 0x1d486; 0x1d4ee; 0x1d522; 0x1d556; 0x1d58a;
  0x1d5be; 0x1d5f2; 0x1d626; 0x1d65a; 0x1d68e; 0x0ab32; 0x00435; 0x004bd; 0x022ff; 0x0ff25;
  0x02130; 0x1d404; 0x1d438; 0x1d46c; 0x1d4d4; 0x1d508; 0x1d53c; 0x1d570; 0x1d5a4; 0x1d5d8;
  0x1d60c; 0x1d640; 0x1d674; 0x00395; 0x1d6ac; 0x1d6e6; 0x1d720; 0x1d75a; 0x1d794; 0x00415;
  0x02d39; 0x013ac; 0x0a4f0; 0x118a6; 0x118ae; 0x10286; 0x1d41f; 0x1d453; 0x1d487; 0x1d4bb;
  0x1d4ef; 0x1d523; 0x1d557; 0x1d58b; 0x1d5bf; 0x1d5f3; 0x1d627; 0x1d65b; 0x1d68f; 0x0ab35;
  0x0a799; 0x0017f; 0x01e9d; 0x00584; 0x1d213; 0x02131; 0x1d405; 0x1d439; 0x1d46d; 0x1d4d5;
  0x1d509; 0x1d53d; 0x1d571; 0x1d5a5; 0x1d5d9; 0x1d60d; 0x1d641; 0x1d675; 0x0a798; 0x003dc;
  0x1d7ca; 0x015b4; 0x0a4dd; 0x118c2; 0x118a2; 0x10287; 0x102a5; 0x10525; 0x0ff47; 0x0210a;
  0x1d420; 0x1d454; 0x1d488; 0x1d4f0; 0x1d524; 0x1d558; 0x1d58c; 0x1d5c0; 0x1d5f4; 0x1d628;
  0x1d65c; 0x1d690; 0x00261; 0x01d83; 0x0018d; 0x00581; 0x1d406; 0x1d43a; 0x1d46e; 0x1d4a2;
  0x1d4d6; 0x1d50a; 0x1d53e; 0x1d572; 0x1d5a6; 0x1d5da; 0x1d60e; 0x1d642; 0x1d676; 0x0050c;
  0x013c0; 0x013f3; 0x0a4d6; 0x0ff48; 0x0210e; 0x1d421; 0x1d489; 0x1d4bd; 0x1d4f1; 0x1d525;
  0x1d559; 0x1d58d; 0x1d5c1; 0x1d5f5; 0x1d629; 0x1d65d; 0x1d691; 0x004bb; 0x00570; 0x013c2;
  0x0ff28; 0x0210b; 0x0210c; 0x0210d; 0x1d407; 0x1d43b; 0x1d46f; 0x1d4d7; 0x1d573; 0x1d5a7;
  0x1d5db; 0x1d60f; 0x1d643; 0x1d677; 0x00397; 0x1d6ae; 0x1d6e8; 0x1d722; 0x1d75c; 0x1d796;
  0x02c8e; 0x0041d; 0x013bb; 0x0157c; 0x0a4e7; 0x102cf; 0x002db; 0x02373; 0x0ff49; 0x02170;
  0x02139; 0x02148; 0x1d422; 0x1d456; 0x1d48a; 0x1d4be; 0x1d4f2; 0x1d526; 0x1d55a; 0x1d58e;
  0x1d5c2; 0x1d5f6; 0x1d62a; 0x1d65e; 0x1d692; 0x00131; 0x1d6a4; 0x0026a; 0x00269; 0x003b9;
  0x01fbe; 0x0037a; 0x1d6ca; 0x1d704; 0x1d73e; 0x1d778; 0x1d7b2; 0x00456; 0x0a647; 0x004cf;
  0x0ab75; 0x013a5; 0x118c3; 0x0ff4a; 0x02149; 0x1d423; 0x1d457; 0x1d48b; 0x1d4bf; 0x1d4f3;
  0x1d527; 0x1d55b; 0x1d58f; 0x1d5c3; 0x1d5f7; 0x1d62b; 0x1d65f; 0x1d693; 0x003f3; 0x00458;
  0x0ff2a; 0x1d409; 0x1d43d; 0x1d471; 0x1d4a5; 0x1d4d9; 0x1d50d; 0x1d541; 0x1d575; 0x1d5a9;
  0x1d5dd; 0x1d611; 0x1d645; 0x1d679; 0x0a7b2; 0x0037f; 0x00408; 0x013ab; 0x0148d; 0x0a4d9;
  0x1d424; 0x1d458; 0x1d48c; 0x1d4c0; 0x1d4f4; 0x1d528; 0x1d55c; 0x1d590; 0x1d5c4; 0x1d5f8;
  0x1d62c; 0x1d660; 0x1d694; 0x0212a; 0x0ff2b; 0x1d40a; 0x1d43e; 0x1d472; 0x1d4a6; 0x1d4da;
  0x1d50e; 0x1d542; 0x1d576; 0x1d5aa; 0x1d5de; 0x1d612; 0x1d646; 0x1d67a; 0x0039a; 0x1d6b1;
  0x1d6eb; 0x1d725; 0x1d75f; 0x1d799; 0x02c94; 0x0041a; 0x013e6; 0x016d5; 0x0a4d7; 0x10518;
  0x005c0; 0x0007c; 0x02223; 0x023fd; 0x0ffe8; 0x00031; 0x00661; 0x006f1; 0x10320; 0x1e8c7;
  0x1d7cf; 0x1d7d9; 0x1d7e3; 0x1d7ed; 0x1d7f7; 0x00049; 0x0ff29; 0x02160; 0x02110; 0x02111;
  0x1d408; 0x1d43c; 0x1d470; 0x1d4d8; 0x1d540; 0x1d574; 0x1d5a8; 0x1d5dc; 0x1d610; 0x1d644;
  0x1d678; 0x00196; 0x0ff4c; 0x0217c; 0x02113; 0x1d425; 0x1d459; 0x1d48d; 0x1d4c1; 0x1d4f5;
  0x1d529; 0x1d55d; 0x1d591; 0x1d5c5; 0x1d5f9; 0x1d62d; 0x1d661; 0x1d695; 0x001c0; 0x00399;
  0x1d6b0; 0x1d6ea; 0x1d724; 0x1d75e; 0x1d798; 0x02c92; 0x00406; 0x004c0; 0x005d5; 0x005df;
  0x00627; 0x1ee00; 0x1ee80; 0x0fe8e; 0x0fe8d; 0x007ca; 0x02d4f; 0x016c1; 0x0a4f2; 0x16f28;
  0x1028a; 0x10309; 0x1d22a; 0x0216c; 0x02112; 0x1d40b; 0x1d43f; 0x1d473; 0x1d4db; 0x1d50f;
  0x1d543; 0x1d577; 0x1d5ab; 0x1d5df; 0x1d613; 0x1d647; 0x1d67b; 0x02cd0; 0x013de; 0x014aa;
  0x0a4e1; 0x16f16; 0x118a3; 0x118b2; 0x1041b; 0x10526; 0x0ff2d; 0x0216f; 0x02133; 0x1d40c;
  0x1d440; 0x1d474; 0x1d4dc; 0x1d510; 0x1d544; 0x1d578; 0x1d5ac; 0x1d5e0; 0x1d614; 0x1d648;
  0x1d67c; 0x0039c; 0x1d6b3; 0x1d6ed; 0x1d727; 0x1d761; 0x1d79b; 0x003fa; 0x02c98; 0x0041c;
  0x013b7; 0x015f0; 0x016d6; 0x0a4df; 0x102b0; 0x10311; 0x1d427; 0x1d45b; 0x1d48f; 0x1d4c3;
  0x1d4f7; 0x1d52b; 0x1d55f; 0x1d593; 0x1d5c7; 0x1d5fb; 0x1d62f; 0x1d663; 0x1d697; 0x00578;
  0x0057c; 0x0ff2e; 0x02115; 0x1d40d; 0x1d441; 0x1d475; 0x1d4a9; 0x1d4dd; 0x1d511; 0x1d579;
  0x1d5ad; 0x1d5e1; 0x1d615; 0x1d649; 0x1d67d; 0x0039d; 0x1d6b4; 0x1d6ee; 0x1d728; 0x1d762;
  0x1d79c; 0x02c9a; 0x0a4e0; 0x10513; 0x00c02; 0x00c82; 0x00d02; 0x00d82; 0x00966; 0x00a66;
  0x00ae6; 0x00be6; 0x00c66; 0x00ce6; 0x00d66; 0x00e50; 0x00ed0; 0x01040; 0x00665; 0x006f5;
  0x0ff4f; 0x02134; 0x1d428; 0x1d45c; 0x1d490; 0x1d4f8; 0x1d52c; 0x1d560; 0x1d594; 0x1d5c8;
  0x1d5fc; 0x1d630; 0x1d664; 0x1d698; 0x01d0f; 0x01d11; 0x0ab3d; 0x003bf; 0x1d6d0; 0x1d70a;
  0x1d744; 0x1d77e; 0x1d7b8; 0x003c3; 0x1d6d4; 0x1d70e; 0x1d748; 0x1d782; 0x1d7bc; 0x02c9f;
  0x0043e; 0x010ff; 0x00585; 0x005e1; 0x00647; 0x1ee24; 0x1ee64; 0x1ee84; 0x0feeb; 0x0feec;
  0x0feea; 0x0fee9; 0x006be; 0x0fbac; 0x0fbad; 0x0fbab; 0x0fbaa; 0x006c1; 0x0fba8; 0x0fba9;
  0x0fba7; 0x0fba6; 0x006d5; 0x00d20; 0x0101d; 0x104ea; 0x118c8; 0x118d7; 0x1042c; 0x00030;
  0x007c0; 0x009e6; 0x00b66; 0x03007; 0x114d0; 0x118e0; 0x1d7ce; 0x1d7d8; 0x1d7e2; 0x1d7ec;
  0x1d7f6; 0x0ff2f; 0x1d40e; 0x1d442; 0x1d476; 0x1d4aa; 0x1d4de; 0x1d512; 0x1d546; 0x1d57a;
  0x1d5ae; 0x1d5e2; 0x1d616; 0x1d64a; 0x1d67e; 0x0039f; 0x1d6b6; 0x1d6f0; 0x1d72a; 0x1d764;
  0x1d79e; 0x02c9e; 0x0041e; 0x00555; 0x02d54; 0x012d0; 0x00b20; 0x104c2; 0x0a4f3; 0x118b5;
  0x10292; 0x102ab; 0x10404; 0x10516; 0x02374; 0x0ff50; 0x1d429; 0x1d45d; 0x1d491; 0x1d4c5;
  0x1d4f9; 0x1d52d; 0x1d561; 0x1d595; 0x1d5c9; 0x1d5fd; 0x1d631; 0x1d665; 0x1d699; 0x003c1;
  0x003f1; 0x1d6d2; 0x1d6e0; 0x1d70c; 0x1d71a; 0x1d746; 0x1d754; 0x1d780; 0x1d78e; 0x1d7ba;
  0x1d7c8; 0x02ca3; 0x00440; 0x0ff30; 0x02119; 0x1d40f; 0x1d443; 0x1d477; 0x1d4ab; 0x1d4df;
  0x1d513; 0x1d57b; 0x1d5af; 0x1d5e3; 0x1d617; 0x1d64b; 0x1d67f; 0x003a1; 0x1d6b8; 0x1d6f2;
  0x1d72c; 0x1d766; 0x1d7a0; 0x02ca2; 0x00420; 0x013e2; 0x0146d; 0x0a4d1; 0x10295; 0x1d42a;
  0x1d45e; 0x1d492; 0x1d4c6; 0x1d4fa; 0x1d52e; 0x1d562; 0x1d596; 0x1d5ca; 0x1d5fe; 0x1d632;
  0x1d666; 0x1d69a; 0x0051b; 0x00563; 0x00566; 0x0211a; 0x1d410; 0x1d444; 0x1d478; 0x1d4ac;
  0x1d4e0; 0x1d514; 0x1d57c; 0x1d5b0; 0x1d5e4; 0x1d618; 0x1d64c; 0x1d680; 0x02d55; 0x1d42b;
  0x1d45f; 0x1d493; 0x1d4c7; 0x1d4fb; 0x1d52f; 0x1d563; 0x1d597; 0x1d5cb; 0x1d5ff; 0x1d633;
  0x1d667; 0x1d69b; 0x0ab47; 0x0ab48; 0x01d26; 0x02c85; 0x00433; 0x0ab81; 0x1d216; 0x0211b;
  0x0211c; 0x0211d; 0x1d411; 0x1d445; 0x1d479; 0x1d4e1; 0x1d57d; 0x1d5b1; 0x1d5e5; 0x1d619;
  0x1d64d; 0x1d681; 0x001a6; 0x013a1; 0x013d2; 0x104b4; 0x01587; 0x0a4e3; 0x16f35; 0x0ff53;
  0x1d42c; 0x1d460; 0x1d494; 0x1d4c8; 0x1d4fc; 0x1d530; 0x1d564; 0x1d598; 0x1d5cc; 0x1d600;
  0x1d634; 0x1d668; 0x1d69c; 0x0a731; 0x001bd; 0x00455; 0x0abaa; 0x118c1; 0x10448; 0x0ff33;
  0x1d412; 0x1d446; 0x1d47a; 0x1d4ae; 0x1d4e2; 0x1d516; 0x1d54a; 0x1d57e; 0x1d5b2; 0x1d5e6;
  0x1d61a; 0x1d64e; 0x1d682; 0x00405; 0x0054f; 0x013d5; 0x013da; 0x0a4e2; 0x16f3a; 0x10296;
  0x10420; 0x1d42d; 0x1d461; 0x1d495; 0x1d4c9; 0x1d4fd; 0x1d531; 0x1d565; 0x1d599; 0x1d5cd;
  0x1d601; 0x1d635; 0x1d669; 0x1d69d; 0x022a4; 0x027d9; 0x1f768; 0x0ff34; 0x1d413; 0x1d447;
  0x1d47b; 0x1d4af; 0x1d4e3; 0x1d517; 0x1d54b; 0x1d57f; 0x1d5b3; 0x1d5e7; 0x1d61b; 0x1d64f;
  0x1d683; 0x003a4; 0x1d6bb; 0x1d6f5; 0x1d72f; 0x1d769; 0x1d7a3; 0x02ca6; 0x00422; 0x013a2;
  0x0a4d4; 0x16f0a; 0x118bc; 0x10297; 0x102b1; 0x10315; 0x1d42e; 0x1d462; 0x1d496; 0x1d4ca;
  0x1d4fe; 0x1d532; 0x1d566; 0x1d59a; 0x1d5ce; 0x1d602; 0x1d636; 0x1d66a; 0x1d69e; 0x0a79f;
  0x01d1c; 0x0ab4e; 0x0ab52; 0x0028b; 0x003c5; 0x1d6d6; 0x1d710; 0x1d74a; 0x1d784; 0x1d7be;
  0x0057d; 0x104f6; 0x118d8; 0x0222a; 0x022c3; 0x1d414; 0x1d448; 0x1d47c; 0x1d4b0; 0x1d4e4;
  0x1d518; 0x1d54c; 0x1d580; 0x1d5b4; 0x1d5e8; 0x1d61c; 0x1d650; 0x1d684; 0x0054d; 0x01200;
  0x104ce; 0x0144c; 0x0a4f4; 0x16f42; 0x118b8; 0x02228; 0x022c1; 0x0ff56; 0x02174; 0x1d42f;
  0x1d463; 0x1d497; 0x1d4cb; 0x1d4ff; 0x1d533; 0x1d567; 0x1d59b; 0x1d5cf; 0x1d603; 0x1d637;
  0x1d66b; 0x1d69f; 0x01d20; 0x003bd; 0x1d6ce; 0x1d708; 0x1d742; 0x1d77c; 0x1d7b6; 0x00475;
  0x005d8; 0x11706; 0x0aba9; 0x118c0; 0x1d20d; 0x00667; 0x006f7; 0x02164; 0x1d415; 0x1d449;
  0x1d47d; 0x1d4b1; 0x1d4e5; 0x1d519; 0x1d54d; 0x1d581; 0x1d5b5; 0x1d5e9; 0x1d61d; 0x1d651;
  0x1d685; 0x00474; 0x02d38; 0x013d9; 0x0142f; 0x0a6df; 0x0a4e6; 0x16f08; 0x118a0; 0x1051d;
  0x0026f; 0x1d430; 0x1d464; 0x1d498; 0x1d4cc; 0x1d500; 0x1d534; 0x1d568; 0x1d59c; 0x1d5d0;
  0x1d604; 0x1d638; 0x1d66c; 0x1d6a0; 0x01d21; 0x00461; 0x0051d; 0x00561; 0x1170a; 0x1170e;
  0x1170f; 0x0ab83; 0x118ef; 0x118e6; 0x1d416; 0x1d44a; 0x1d47e; 0x1d4b2; 0x1d4e6; 0x1d51a;
  0x1d54e; 0x1d582; 0x1d5b6; 0x1d5ea; 0x1d61e; 0x1d652; 0x1d686; 0x0051c; 0x013b3; 0x013d4;
  0x0a4ea; 0x0166e; 0x000d7; 0x0292b; 0x0292c; 0x02a2f; 0x0ff58; 0x02179; 0x1d431; 0x1d465;
  0x1d499; 0x1d4cd; 0x1d501; 0x1d535; 0x1d569; 0x1d59d; 0x1d5d1; 0x1d605; 0x1d639; 0x1d66d;
  0x1d6a1; 0x00445; 0x01541; 0x0157d; 0x0166d; 0x02573; 0x10322; 0x118ec; 0x0ff38; 0x02169;
  0x1d417; 0x1d44b; 0x1d47f; 0x1d4b3; 0x1d4e7; 0x1d51b; 0x1d54f; 0x1d583; 0x1d5b7; 0x1d5eb;
  0x1d61f; 0x1d653; 0x1d687; 0x0a7b3; 0x003a7; 0x1d6be; 0x1d6f8; 0x1d732; 0x1d76c; 0x1d7a6;
  0x02cac; 0x00425; 0x02d5d; 0x016b7; 0x0a4eb; 0x10290; 0x102b4; 0x10317; 0x10527; 0x00263;
  0x01d8c; 0x0ff59; 0x1d432; 0x1d466; 0x1d49a; 0x1d4ce; 0x1d502; 0x1d536; 0x1d56a; 0x1d59e;
  0x1d5d2; 0x1d606; 0x1d63a; 0x1d66e; 0x1d6a2; 0x0028f; 0x01eff; 0x0ab5a; 0x003b3; 0x0213d;
  0x1d6c4; 0x1d6fe; 0x1d738; 0x1d772; 0x1d7ac; 0x00443; 0x004af; 0x010e7; 0x118dc; 0x0ff39;
  0x1d418; 0x1d44c; 0x1d480; 0x1d4b4; 0x1d4e8; 0x1d51c; 0x1d550; 0x1d584; 0x1d5b8; 0x1d5ec;
  0x1d620; 0x1d654; 0x1d688; 0x003a5; 0x003d2; 0x1d6bc; 0x1d6f6; 0x1d730; 0x1d76a; 0x1d7a4;
  0x02ca8; 0x00423; 0x004ae; 0x013a9; 0x013bd; 0x0a4ec; 0x16f43; 0x118a4; 0x102b2; 0x1d433;
  0x1d467; 0x1d49b; 0x1d4cf; 0x1d503; 0x1d537; 0x1d56b; 0x1d59f; 0x1d5d3; 0x1d607; 0x1d63b;
  0x1d66f; 0x1d6a3; 0x01d22; 0x0ab93; 0x118c4; 0x102f5; 0x118e5; 0x0ff3a; 0x02124; 0x02128;
  0x1d419; 0x1d44d; 0x1d481; 0x1d4b5; 0x1d4e9; 0x1d585; 0x1d5b9; 0x1d5ed; 0x1d621; 0x1d655;
  0x1d689; 0x00396; 0x1d6ad; 0x1d6e7; 0x1d721; 0x1d75b; 0x1d795; 0x013c3; 0x0a4dc; 0x118a9
].

(** [rspamd_can_alias_latin]: the table is loaded into a hash set keyed by
    the code point on first use; a lookup is a membership test. *)
Definition rspamd_can_alias_latin (ch : Z) : bool :=
  existsb (Z.eqb ch) latin_confusable.

(** ** Module configuration *)

(** [struct chartable_ctx]; a [const gchar *] that was never assigned is
    [None]. *)
Record chartable_ctx : Type := {
  symbol : option string;
  url_symbol : option string;
  threshold : Q;
  max_word_len : Z
}.

Definition DEFAULT_SYMBOL : string := "R_MIXED_CHARSET".
Definition DEFAULT_URL_SYMBOL : string := "R_MIXED_CHARSET_URL".
Definition DEFAULT_THRESHOLD : Q := 1 # 10.

(** [a > b] on [gdouble]s. *)
Definition Qgt_bool (a b : Q) : bool := negb (Qle_bool a b).

(** ** The word scorers *)

(** The [state] enumeration the two scorers declare alike. *)
Inductive process_state : Type :=
| start_process
| got_alpha
| got_digit
| got_unknown.

Definition process_state_eqb (a b : process_state) : bool :=
  match a, b with
  | start_process, start_process
  | got_alpha, got_alpha
  | got_digit, got_digit
  | got_unknown, got_unknown => true
  | _, _ => false
  end.

(** Locals of [rspamd_chartable_process_word_utf]; [ncap] is the cell the
    caller's pointer designates, [None] for a null pointer. *)
Module U.
Record locals : Type := {
  badness : Q;
  last_is_latin : Z;
  same_script_count : Z;
  nsym : Z;
  state : process_state;
  prev_state : process_state;
  ncap : option Z
}.

Definition init (ncap : option Z) : locals :=
  {| badness := 0; last_is_latin := -1; same_script_count := 0; nsym := 0;
     state := start_process; prev_state := start_process; ncap := ncap |}.
End U.

(** Locals of [rspamd_chartable_process_word_ascii].  [same_script_count]
    is a [gint] there: it counts bytes of one word, and is kept as an
    integer without wrap-around (overflowing it would take a word of
    2^31 bytes). *)
Module A.
Record locals : Type := {
  badness : Q;
  last_sc : Z;
  same_script_count : Z;
  seen_alpha : bool;
  state : process_state
}.

Definition init : locals :=
  {| badness := 0; last_sc := 0; same_script_count := 0;
     seen_alpha := false; state := start_process |}.
End A.

(** The two values of the byte scorer's script enumeration. *)
Definition ascii : Z := 1.
Definition non_ascii : Z := 2.

(** GLib's ASCII classifiers on a byte value. *)
Definition g_ascii_isdigit (c : Z) : bool := in_range 0x30 0x39 c.

Definition g_ascii_isalpha (c : Z) : bool :=
  in_range 0x41 0x5a c || in_range 0x61 0x7a c.

Definition g_ascii_isxdigit (c : Z) : bool :=
  g_ascii_isdigit c || in_range 0x41 0x46 c || in_range 0x61 0x66 c.

Section Scorers.
Context {icu : UCharAPI}.

(** [sc] once the Latin-like blocks are folded into Basic Latin. *)
Definition script_block (uc : Z) : Z :=
  let sc := ublock_getCode uc in
  if (sc <=? UBLOCK_COMBINING_DIACRITICAL_MARKS)
     || (sc =? UBLOCK_LATIN_EXTENDED_ADDITIONAL)
  then UBLOCK_BASIC_LATIN
  else sc.

Definition is_latin (uc : Z) : bool := script_block uc =? UBLOCK_BASIC_LATIN.

(** The [if (state == got_digit) ... else if (state == got_alpha) ...]
    part of the alphabetic branch. *)
Definition utf_alpha_transition (is_url : bool) (uc : Z) (st : U.locals)
  : U.locals :=
  match U.state st with
  | got_digit =>
    if negb is_url && negb (is_latin uc)
       && negb (process_state_eqb (U.prev_state st) start_process)
    then {| U.badness := U.badness st + (1 # 4);
            U.last_is_latin := U.last_is_latin st;
            U.same_script_count := U.same_script_count st;
            U.nsym := U.nsym st; U.state := U.state st;
            U.prev_state := U.prev_state st; U.ncap := U.ncap st |}
    else st
  | got_alpha =>
    if 0 <? U.same_script_count st then
      if negb (is_latin uc) && negb (U.last_is_latin st =? 0) then
        {| U.badness :=
             if rspamd_can_alias_latin uc
             then U.badness st + 1 / inject_Z (U.same_script_count st)
             else U.badness st;
           U.last_is_latin := 0;
           U.same_script_count := 1;
           U.nsym := U.nsym st; U.state := U.state st;
           U.prev_state := U.prev_state st; U.ncap := U.ncap st |}
      else
        {| U.badness := U.badness st;
           U.last_is_latin := U.last_is_latin st;
           U.same_script_count := guint_inc (U.same_script_count st);
           U.nsym := U.nsym st; U.state := U.state st;
           U.prev_state := U.prev_state st; U.ncap := U.ncap st |}
    else
      {| U.badness := U.badness st;
         U.last_is_latin := if is_latin uc then 1 else 0;
         U.same_script_count := 1;
         U.nsym := U.nsym st; U.state := U.state st;
         U.prev_state := U.prev_state st; U.ncap := U.ncap st |}
  | _ => st
  end.

(** One turn of the scorer's loop on a decoded code point [uc >= 0]. *)
Definition utf_step (is_url : bool) (st : U.locals) (uc : Z) : U.locals :=
  if u_isalpha uc then
    let ncap' :=
      if negb (is_latin uc) && u_isupper uc
      then option_map guint_inc (U.ncap st)
      else U.ncap st in
    let st1 := utf_alpha_transition is_url uc st in
    {| U.badness := U.badness st1;
       U.last_is_latin := U.last_is_latin st1;
       U.same_script_count := U.same_script_count st1;
       U.nsym := guint_inc (U.nsym st);
       U.state := got_alpha;
       U.prev_state := U.state st;
       U.ncap := ncap' |}
  else if u_isdigit uc then
    {| U.badness := U.badness st;
       U.last_is_latin := U.last_is_latin st;
       U.same_script_count := 0;
       U.nsym := guint_inc (U.nsym st);
       U.state := got_digit;
       U.prev_state :=
         if process_state_eqb (U.state st) got_digit
         then U.prev_state st else U.state st;
       U.ncap := U.ncap st |}
  else
    {| U.badness := U.badness st;
       U.last_is_latin := U.last_is_latin st;
       U.same_script_count := 0;
       U.nsym := guint_inc (U.nsym st);
       U.state := got_unknown;
       U.prev_state :=
         if process_state_eqb (U.state st) got_unknown
         then U.prev_state st else U.state st;
       U.ncap := U.ncap st |}.

(** [while (p + i < end) { U8_NEXT (...); if (uc < 0) break; ... }].
    Each turn consumes at least one byte, so [length] of the word is
    fuel enough. *)
Fixpoint utf_loop (fuel : nat) (is_url : bool) (p : list byte)
         (st : U.locals) : U.locals :=
  match fuel with
  | O => st
  | S fuel' =>
    match p with
    | [] => st
    | _ :: _ =>
      let (uc, rest) := U8_NEXT p in
      if uc <? 0 then st
      else utf_loop fuel' is_url rest (utf_step is_url st uc)
    end
  end.

(** The code after the loop: long words score nothing, the others are
    capped. *)
Definition utf_finish (ctx : chartable_ctx) (st : U.locals) : Q :=
  if max_word_len ctx <? U.nsym st then 0
  else if Qgt_bool (U.badness st) 4 then 4
  else U.badness st.

(** Returns the badness and the caller's [ncap] cell as the call leaves
    it. *)
Definition rspamd_chartable_process_word_utf
           (w : rspamd_stat_token_t) (is_url : bool) (ncap : option Z)
           (ctx : chartable_ctx) : Q * option Z :=
  let st := utf_loop (length (begin w)) is_url (begin w) (U.init ncap) in
  (utf_finish ctx st, U.ncap st).

(** The byte scorer's alphabetic branch before [seen_alpha] and [state]
    are set. *)
Definition ascii_alpha_transition (is_url : bool) (c : Z) (st : A.locals)
  : A.locals :=
  match A.state st with
  | got_digit =>
    if A.seen_alpha st && negb is_url && negb (g_ascii_isxdigit c)
    then {| A.badness := A.badness st + (1 # 4);
            A.last_sc := A.last_sc st;
            A.same_script_count := A.same_script_count st;
            A.seen_alpha := A.seen_alpha st; A.state := A.state st |}
    else st
  | got_alpha =>
    let sc := if 0x7f <? c then ascii else non_ascii in
    if 0 <? A.same_script_count st then
      if negb (sc =? A.last_sc st) then
        {| A.badness :=
             A.badness st + 1 / inject_Z (A.same_script_count st);
           A.last_sc := sc;
           A.same_script_count := 1;
           A.seen_alpha := A.seen_alpha st; A.state := A.state st |}
      else
        {| A.badness := A.badness st;
           A.last_sc := A.last_sc st;
           A.same_script_count := A.same_script_count st + 1;
           A.seen_alpha := A.seen_alpha st; A.state := A.state st |}
    else
      {| A.badness := A.badness st;
         A.last_sc := sc;
         A.same_script_count := 1;
         A.seen_alpha := A.seen_alpha st; A.state := A.state st |}
  | _ => st
  end.

(** One turn of the byte scorer's loop on the byte [*p]. *)
Definition ascii_step (is_url : bool) (st : A.locals) (b : byte)
  : A.locals :=
  let c := byte_val b in
  if g_ascii_isalpha c || (0x7f <? c) then
    let st1 := ascii_alpha_transition is_url c st in
    {| A.badness := A.badness st1;
       A.last_sc := A.last_sc st1;
       A.same_script_count := A.same_script_count st1;
       A.seen_alpha := true;
       A.state := got_alpha |}
  else if g_ascii_isdigit c then
    {| A.badness := A.badness st;
       A.last_sc := A.last_sc st;
       A.same_script_count := 0;
       A.seen_alpha := A.seen_alpha st;
       A.state := got_digit |}
  else
    {| A.badness := A.badness st;
       A.last_sc := A.last_sc st;
       A.same_script_count := 0;
       A.seen_alpha := A.seen_alpha st;
       A.state := got_unknown |}.

(** [while (p < end) { ...; p ++; }] *)
Definition ascii_loop (is_url : bool) (p : list byte) (st : A.locals)
  : A.locals :=
  fold_left (ascii_step is_url) p st.

Definition rspamd_chartable_process_word_ascii
           (w : rspamd_stat_token_t) (is_url : bool)
           (ctx : chartable_ctx) : Q :=
  if max_word_len ctx <? len w then 0
  else
    let st := ascii_loop is_url (begin w) A.init in
    if Qgt_bool (A.badness st) 4 then 4 else A.badness st.

End Scorers.

(** ** The message model and the result sink *)

(** A text part: [normalized_words] may be a null array; [is_part_utf] is
    what [IS_PART_UTF] reads; [capital_letters] is a [guint]. *)
Record rspamd_mime_text_part : Type := {
  normalized_words : option (list rspamd_stat_token_t);
  is_part_utf : bool;
  capital_letters : Z
}.

(** What the callbacks read of a [struct rspamd_url]: [host] stands for
    the pair ([host], [hostlen]). *)
Record rspamd_url : Type := {
  host : list byte
}.

Definition hostlen (u : rspamd_url) : Z := Z.of_nat (length (host u)).

(** One call of [rspamd_task_insert_result]: symbol, score, option. *)
Record detection : Type := {
  d_symbol : option string;
  d_score : Q;
  d_option : option string
}.

(** The task: the hash tables [urls] and [emails] are the lists of their
    values in iteration order; [results] is the log of the calls made to
    the result sink, oldest first. *)
Record rspamd_task : Type := {
  text_parts : list (option rspamd_mime_text_part);
  subject : option (list byte);
  urls : list rspamd_url;
  emails : list rspamd_url;
  results : list detection
}.

Definition rspamd_task_insert_result
           (results : list detection) (sym : option string) (score : Q)
           (opt : option string) : list detection :=
  results ++ [{| d_symbol := sym; d_score := score; d_option := opt |}].

Section Callbacks.
Context {icu : UCharAPI} {txt : TextAPI}.

(** The test that lets a word of a part be scored. *)
Definition word_is_scored (w : rspamd_stat_token_t) : bool :=
  (0 <? len w) && negb (Z.land (flags w) RSPAMD_STAT_TOKEN_FLAG_TEXT =? 0).

(** Body of the [for] loop of [rspamd_chartable_process_part] on the
    pair ([cur_score], [ncap]). *)
Definition part_word_step (ctx : chartable_ctx) (utf : bool)
           (acc : Q * Z) (w : rspamd_stat_token_t) : Q * Z :=
  let (cur_score, ncap) := acc in
  if word_is_scored w then
    if utf then
      let (b, cell) :=
        rspamd_chartable_process_word_utf w false (Some ncap) ctx in
      ((cur_score + b)%Q, match cell with Some n => n | None => ncap end)
    else
      ((cur_score + rspamd_chartable_process_word_ascii w false ctx)%Q, ncap)
  else acc.

Definition part_words_loop (ctx : chartable_ctx) (utf : bool)
           (ws : list rspamd_stat_token_t) : Q * Z :=
  fold_left (part_word_step ctx utf) ws (0%Q, 0).

(** [cur_score /= len; if (cur_score > 2.0) cur_score = 2.0;] *)
Definition average_capped (cur_score : Q) (n : nat) : Q :=
  let avg := (cur_score / inject_Z (Z.of_nat n))%Q in
  if Qgt_bool avg 2 then 2 else avg.

(** Returns the result log and the part as the call leaves them. *)
Definition rspamd_chartable_process_part
           (results : list detection)
           (part : option rspamd_mime_text_part) (ctx : chartable_ctx)
  : list detection * option rspamd_mime_text_part :=
  match part with
  | None => (results, part)
  | Some p =>
    match normalized_words p with
    | None => (results, part)
    | Some [] => (results, part)
    | Some ws =>
      let (cur_score, ncap) := part_words_loop ctx (is_part_utf p) ws in
      let p' := {| normalized_words := normalized_words p;
                   is_part_utf := is_part_utf p;
                   capital_letters :=
                     guint_wrap (capital_letters p + ncap) |} in
      let cur_score := average_capped cur_score (length ws) in
      if Qgt_bool cur_score (threshold ctx)
      then (rspamd_task_insert_result results (symbol ctx) cur_score None,
            Some p')
      else (results, Some p')
    end
  end.

(** The loop of [chartable_symbol_callback] over the text parts. *)
Fixpoint process_parts (results : list detection)
         (parts : list (option rspamd_mime_text_part))
         (ctx : chartable_ctx)
  : list detection * list (option rspamd_mime_text_part) :=
  match parts with
  | [] => (results, [])
  | part :: parts' =>
    let (results1, part') :=
      rspamd_chartable_process_part results part ctx in
    let (results2, parts'') := process_parts results1 parts' ctx in
    (results2, part' :: parts'')
  end.

(** The subject's words are scored by the Unicode scorer with a null
    [ncap]. *)
Definition subject_words_loop (ctx : chartable_ctx)
           (ws : list rspamd_stat_token_t) : Q :=
  fold_left
    (fun cur_score w =>
       (cur_score + fst (rspamd_chartable_process_word_utf w false None ctx))%Q)
    ws 0%Q.

Definition process_subject (results : list detection)
           (subj : option (list byte)) (ctx : chartable_ctx)
  : list detection :=
  match subj with
  | None => results
  | Some s =>
    match rspamd_tokenize_text s with
    | Some ((_ :: _) as ws) =>
      let cur_score :=
        average_capped (subject_words_loop ctx ws) (length ws) in
      if Qgt_bool cur_score (threshold ctx)
      then rspamd_task_insert_result results (symbol ctx) cur_score
             (Some "subject"%string)
      else results
    | _ => results
    end
  end.

Definition chartable_symbol_callback (task : rspamd_task)
           (ctx : chartable_ctx) : rspamd_task :=
  let (results1, parts') :=
    process_parts (results task) (text_parts task) ctx in
  {| text_parts := parts';
     subject := subject task;
     urls := urls task;
     emails := emails task;
     results := process_subject results1 (subject task) ctx |}.

(** The score of one host; the token built for it carries [begin] and
    [len] only, its [flags] are never read. *)
Definition host_score (ctx : chartable_ctx) (u : rspamd_url) : Q :=
  let w := {| begin := host u; flags := 0 |} in
  if g_utf8_validate (begin w)
  then fst (rspamd_chartable_process_word_utf w true None ctx)
  else rspamd_chartable_process_word_ascii w true ctx.

(** One [while (g_hash_table_iter_next (...))] loop of
    [chartable_url_symbol_callback] on [cur_score]. *)
Fixpoint url_loop (ctx : chartable_ctx) (it : list rspamd_url)
         (cur_score : Q) : Q :=
  match it with
  | [] => cur_score
  | u :: it' =>
    if Qgt_bool cur_score 2 then 2
    else
      url_loop ctx it'
        (if 0 <? hostlen u then (cur_score + host_score ctx u)%Q
         else cur_score)
  end.

Definition chartable_url_symbol_callback (task : rspamd_task)
           (ctx : chartable_ctx) : rspamd_task :=
  let cur_score := url_loop ctx (urls task) 0 in
  let cur_score := url_loop ctx (emails task) cur_score in
  {| text_parts := text_parts task;
     subject := subject task;
     urls := urls task;
     emails := emails task;
     results :=
       if Qgt_bool cur_score (threshold ctx)
       then rspamd_task_insert_result (results task) (symbol ctx)
              cur_score None
       else results task |}.

End Callbacks.

(** ** Loading the configuration *)

(** What the configuration code learns about the module: whether it is
    enabled and, for each option, [None] when
    [rspamd_config_get_module_opt] finds none and otherwise what the reader
    applied to the value returns ([ucl_obj_tostring] a string or a null
    pointer, [ucl_obj_todouble_safe] a number or a failure,
    [ucl_object_toint] an integer). *)
Record module_options : Type := {
  module_enabled : bool;
  opt_symbol : option (option string);
  opt_url_symbol : option (option string);
  opt_threshold : option (option Q);
  opt_max_word_len : option Z
}.

(** The zeroed context with [max_word_len] set. *)
Definition chartable_module_init : chartable_ctx :=
  {| symbol := None; url_symbol := None; threshold := 0;
     max_word_len := 10 |}.

(** The assignments [chartable_module_config] makes to the context. *)
Definition chartable_module_config (opts : module_options)
           (ctx : chartable_ctx) : chartable_ctx :=
  if negb (module_enabled opts) then ctx
  else
    let sym :=
      match opt_symbol opts with
      | Some v => v
      | None => Some DEFAULT_SYMBOL
      end in
    let usym :=
      match opt_url_symbol opts with
      | Some v => v
      | None => Some DEFAULT_URL_SYMBOL
      end in
    let thr :=
      match opt_threshold opts with
      | Some (Some q) => q
      | Some None => DEFAULT_THRESHOLD
      | None => DEFAULT_THRESHOLD
      end in
    match opt_max_word_len opts with
    | Some v =>
      {| symbol := sym; url_symbol := usym; threshold := thr;
         max_word_len := guint_wrap v |}
    | None =>
      {| symbol := sym; url_symbol := usym; threshold := DEFAULT_THRESHOLD;
         max_word_len := max_word_len ctx |}
    end.

(** The configuration with no option set. *)
Definition no_options : module_options :=
  {| module_enabled := true; opt_symbol := None; opt_url_symbol := None;
     opt_threshold := None; opt_max_word_len := None |}.

Definition default_ctx : chartable_ctx :=
  chartable_module_config no_options chartable_module_init.

(** ** Instances for the worked examples

    The examples below need concrete character data.  [ucd_sample] follows
    the Unicode Character Database on Basic Latin letters and digits and on
    the Greek and Cyrillic letters; blocks are those of U+0000..U+04FF.  It
    stands for ICU on these code points only. *)

#[local] Instance ucd_sample : UCharAPI := {
  u_isalpha uc :=
    in_range 0x41 0x5a uc || in_range 0x61 0x7a uc
    || in_range 0x391 0x3a1 uc || in_range 0x3a3 0x3a9 uc
    || in_range 0x3b1 0x3c9 uc || in_range 0x400 0x45f uc;
  u_isdigit uc := in_range 0x30 0x39 uc;
  u_isupper uc :=
    in_range 0x41 0x5a uc || in_range 0x391 0x3a1 uc
    || in_range 0x3a3 0x3a9 uc || in_range 0x400 0x42f uc;
  ublock_getCode uc :=
    if in_range 0x0 0x7f uc then 1
    else if in_range 0x80 0xff uc then 2
    else if in_range 0x100 0x17f uc then 3
    else if in_range 0x180 0x24f uc then 4
    else if in_range 0x250 0x2af uc then 5
    else if in_range 0x2b0 0x2ff uc then 6
    else if in_range 0x300 0x36f uc then 7
    else if in_range 0x370 0x3ff uc then 8
    else if in_range 0x400 0x4ff uc then 9
    else 0
}.

(** The code points [U8_NEXT] yields from [p] until the end or the first
    failure. *)
Fixpoint u8_codepoints (fuel : nat) (p : list byte) : list Z :=
  match fuel with
  | O => []
  | S fuel' =>
    match p with
    | [] => []
    | _ :: _ =>
      let (uc, rest) := U8_NEXT p in
      if uc <? 0 then [] else uc :: u8_codepoints fuel' rest
    end
  end.

Definition codepoints (p : list byte) : list Z := u8_codepoints (length p) p.

(** The bytes [U8_NEXT] has read when [u8_codepoints] stops. *)
Fixpoint u8_consumed (fuel : nat) (p : list byte) : nat :=
  match fuel with
  | O => O
  | S fuel' =>
    match p with
    | [] => O
    | _ :: _ =>
      let (uc, rest) := U8_NEXT p in
      if uc <? 0 then O
      else (length p - length rest + u8_consumed fuel' rest)%nat
    end
  end.

(** A word is well formed when decoding it reads every byte. *)
Definition well_formed (p : list byte) : bool :=
  Nat.eqb (u8_consumed (length p) p) (length p).

(** Splitting a byte string at the spaces, empty pieces dropped. *)
Fixpoint split_spaces (cur : list byte) (s : list byte) : list (list byte) :=
  match s with
  | [] => match cur with [] => [] | _ => [rev cur] end
  | b :: s' =>
    if byte_val b =? 0x20
    then match cur with
         | [] => split_spaces [] s'
         | _ => rev cur :: split_spaces [] s'
         end
    else split_spaces (b :: cur) s'
  end.

(** A validator and a tokenizer for the examples: a byte string is valid
    when it is well formed and holds no NUL; the tokenizer cuts at spaces
    and flags every word as text. *)
#[local] Instance text_sample : TextAPI := {
  g_utf8_validate p :=
    well_formed p && forallb (fun uc => negb (uc =? 0)) (codepoints p);
  rspamd_tokenize_text s :=
    Some (map (fun p => {| begin := p; flags := RSPAMD_STAT_TOKEN_FLAG_TEXT |})
              (split_spaces [] s))
}.

(** A text word over the bytes of a string literal. *)
Definition text_word (s : string) : rspamd_stat_token_t :=
  {| begin := list_byte_of_string s; flags := RSPAMD_STAT_TOKEN_FLAG_TEXT |}.

Definition url_of (s : string) : rspamd_url :=
  {| host := list_byte_of_string s |}.

(** A part that holds the given words. *)
Definition part_of (utf : bool) (ws : list rspamd_stat_token_t)
  : rspamd_mime_text_part :=
  {| normalized_words := Some ws; is_part_utf := utf; capital_letters := 0 |}.

(** ** Vocabulary of the statements *)

Section Vocabulary.
Context {icu : UCharAPI}.

(** The scorer's loop body run over a list of code points. *)
Definition utf_scan (is_url : bool) (cps : list Z) (st : U.locals)
  : U.locals :=
  fold_left (utf_step is_url) cps st.

Definition latin_letter (uc : Z) : bool := u_isalpha uc && is_latin uc.

Definition foreign_letter (uc : Z) : bool :=
  u_isalpha uc && negb (is_latin uc).

(** A non-Latin letter of the Confusable Set. *)
Definition confusable_letter (uc : Z) : bool :=
  foreign_letter uc && rspamd_can_alias_latin uc.


(** Words that change between a Latin letter and a confusable letter at
    every character, starting with the Latin one when [latin_first]. *)
Fixpoint alternates (latin_first : bool) (cps : list Z) : bool :=
  match cps with
  | [] => true
  | uc :: cps' =>
    (if latin_first then latin_letter uc else confusable_letter uc)
    && alternates (negb latin_first) cps'
  end.
End Vocabulary.

(** A byte the byte scorer takes as alphabetic, and its script. *)
Definition alpha_byte (b : byte) : bool :=
  g_ascii_isalpha (byte_val b) || (0x7f <? byte_val b).

Definition byte_script (b : byte) : Z :=
  if 0x7f <? byte_val b then ascii else non_ascii.


(** The detections a callback has added to a result log. *)
Definition logged_since (before after : list detection) : list detection :=
  skipn (length before) after.

(** ** Inputs of the worked examples *)


Definition task_of_urls (us : list rspamd_url) : rspamd_task :=
  {| text_parts := []; subject := None; urls := us; emails := [];
     results := [] |}.


(** A host of ten characters: "paypal" with U+0443 (Cyrillic small u,
    bytes D1 83) for its "y", a dot and a three-letter domain. *)
Definition lookalike_host (tld : string) : rspamd_url :=
  {| host := list_byte_of_string "pa" ++ [xd1; x83]
             ++ list_byte_of_string "pal." ++ list_byte_of_string tld |}.

(** Four characters: "a", U+0430 (Cyrillic small a, bytes D0 B0, a member
    of the confusable table), and the two once more. *)
Definition latin_cyrillic_word : rspamd_stat_token_t :=
  {| begin := [x61; xd0; xb0; x61; xd0; xb0];
     flags := RSPAMD_STAT_TOKEN_FLAG_TEXT |}.

(** The same letters, the Cyrillic one first: five characters. *)
Definition cyrillic_latin_word : rspamd_stat_token_t :=
  {| begin := [xd0; xb0; x61; xd0; xb0; x61; xd0; xb0];
     flags := RSPAMD_STAT_TOKEN_FLAG_TEXT |}.

(** "x", a run of "ab", then U+0430. *)
Definition run_then_cyrillic_word : rspamd_stat_token_t :=
  {| begin := [x78; x61; x62; xd0; xb0];
     flags := RSPAMD_STAT_TOKEN_FLAG_TEXT |}.

(** Eleven ASCII letters. *)
Definition eleven_letters : rspamd_stat_token_t :=
  {| begin := list_byte_of_string "abcdefghijk";
     flags := RSPAMD_STAT_TOKEN_FLAG_TEXT |}.


(** "aa" and U+0430: a well-formed word that scores 1. *)
Definition well_formed_prefix : list byte := [x61; x61; xd0; xb0].

(** A lead byte with no trail byte, and a byte that is no lead byte
    followed by more text. *)
Definition truncated_tail : list byte := [xd0].
Definition invalid_tail : list byte := [xff; x61; x61; xd0; xb0].


Definition one_lookalike_host : rspamd_task :=
  task_of_urls [lookalike_host "com"].

Definition three_lookalike_hosts : rspamd_task :=
  task_of_urls [lookalike_host "com"; lookalike_host "net";
                lookalike_host "org"].

(** ** Further definitions from the source *)


(** The hash table [latin_confusable_ht] as the set of its keys, kept as a
    list without repeats; [g_hash_table_insert] of a key that is there
    leaves the keys as they are. *)
Definition g_hash_table_insert_key (ht : list Z) (k : Z) : list Z :=
  if existsb (Z.eqb k) ht then ht else k :: ht.

(** The table right after it is built: every entry of the literal array
    inserted in turn into a new table. *)
Definition latin_confusable_built : list Z :=
  fold_left g_hash_table_insert_key latin_confusable [].

(** [rspamd_can_alias_latin] with its global made explicit: the table
    pointer on entry ([None] for NULL), the answer, the table pointer on
    return. *)
Definition rspamd_can_alias_latin_ht (ht : option (list Z)) (ch : Z)
  : bool * option (list Z) :=
  let ht' :=
    match ht with
    | None => latin_confusable_built
    | Some t => t
    end in
  (existsb (Z.eqb ch) ht', Some ht').

(** The code points that make the Unicode scorer advance [ncap]: letters
    outside the Latin blocks that are upper case. *)
Definition counts_as_capital {icu : UCharAPI} (uc : Z) : bool :=
  foreign_letter uc && u_isupper uc.

Definition capitals_of {icu : UCharAPI} (w : rspamd_stat_token_t) : Z :=
  Z.of_nat (length (filter counts_as_capital (codepoints (begin w)))).

(** The capitals of the scored words of a part. *)
Definition capitals_of_words {icu : UCharAPI}
           (ws : list rspamd_stat_token_t) : Z :=
  fold_right Z.add 0 (map capitals_of (filter word_is_scored ws)).

(** The two scans of one word, in and out of hostname context, agree on
    everything but the badness, which hostname context can only lower. *)
Definition below (st1 st2 : U.locals) : Prop :=
  U.last_is_latin st1 = U.last_is_latin st2
  /\ U.same_script_count st1 = U.same_script_count st2
  /\ U.nsym st1 = U.nsym st2
  /\ U.state st1 = U.state st2
  /\ U.prev_state st1 = U.prev_state st2
  /\ U.ncap st1 = U.ncap st2
  /\ (U.badness st1 <= U.badness st2)%Q.

(** The locals of the Unicode scorer with the [ncap] pointer taken as
    null. *)
Definition without_ncap (st : U.locals) : U.locals :=
  {| U.badness := U.badness st;
     U.last_is_latin := U.last_is_latin st;
     U.same_script_count := U.same_script_count st;
     U.nsym := U.nsym st;
     U.state := U.state st;
     U.prev_state := U.prev_state st;
     U.ncap := None |}.

(** A detection as the subject path would log it. *)
Definition as_subject (d : detection) : detection :=
  {| d_symbol := d_symbol d; d_score := d_score d;
     d_option := Some "subject"%string |}.

(** What a detection logged for a part, and one logged for the subject,
    look like. *)
Definition part_detection (ctx : chartable_ctx) (d : detection) : Prop :=
  d_symbol d = symbol ctx /\ d_option d = None
  /\ (threshold ctx < d_score d)%Q /\ (d_score d <= 2)%Q.

Definition subject_detection (ctx : chartable_ctx) (d : detection) : Prop :=
  d_symbol d = symbol ctx /\ d_option d = Some "subject"%string
  /\ (threshold ctx < d_score d)%Q /\ (d_score d <= 2)%Q.

(** What the byte scorer's loop keeps true on a word whose alphabetic
    bytes all have the script [sc], in hostname context or without digits:
    nothing is added, a tracked run has the script [sc], and the state
    [got_digit] is met in hostname context only. *)
Definition one_script (sc : Z) (is_url : bool) (st : A.locals) : Prop :=
  A.badness st = 0%Q
  /\ (0 < A.same_script_count st -> A.last_sc st = sc)
  /\ (is_url = true \/ A.state st <> got_digit).


(** ** Inputs of further examples *)

(** "Hello", "2024" and "a-b": no letter outside the Latin blocks. *)
Definition latin_words : list rspamd_stat_token_t :=
  [ {| begin := list_byte_of_string "Hello";
       flags := RSPAMD_STAT_TOKEN_FLAG_TEXT |};
    {| begin := list_byte_of_string "2024";
       flags := RSPAMD_STAT_TOKEN_FLAG_TEXT |};
    {| begin := list_byte_of_string "a-b";
       flags := RSPAMD_STAT_TOKEN_FLAG_TEXT |} ].

(** U+0410 U+0411 (Cyrillic capitals A and BE) and "c": two capitals
    outside the Latin blocks. *)
Definition two_cyrillic_capitals : rspamd_stat_token_t :=
  {| begin := [xd0; x90; xd0; x91; x63];
     flags := RSPAMD_STAT_TOKEN_FLAG_TEXT |}.

(** A subject of two words: U+0430 "a" U+0430, which scores 1, and "cc". *)
Definition lookalike_subject : list byte :=
  [xd0; xb0; x61; xd0; xb0; x20; x63; x63].



(** Six bytes that are no valid UTF-8, "aa", 0x80, "a", 0x80, "a": the
    byte scorer gives them 4. *)
Definition high_byte_host : rspamd_url :=
  {| host := [x61; x61; x80; x61; x80; x61] |}.

(** ** Tactics *)

(** Comparisons of rational constants. *)
Ltac qconst := unfold Qle, Qlt; simpl; lia.

(** Case analysis on the tests and states a goal branches on. *)
Ltac split_ifs :=
  repeat match goal with
         | |- context [if ?c then _ else _] =>
           let E := fresh "E" in destruct c eqn:E
         | |- context [match ?s with
                       | start_process => _ | got_alpha => _
                       | got_digit => _ | got_unknown => _ end] =>
           let E := fresh "E" in destruct s eqn:E
         end.

(** * Properties *)

(** ** Arithmetic of the model *)

Lemma Qgt_bool_true (a b : Q) : Qgt_bool a b = true <-> (b < a)%Q.
Proof.
  unfold Qgt_bool. rewrite negb_true_iff.
  split; intro H.
  - apply Qnot_le_lt. intro Hle. apply Qle_bool_iff in Hle. congruence.
  - destruct (Qle_bool a b) eqn:E; [|reflexivity].
    apply Qle_bool_iff in E. exfalso. exact (Qlt_not_le _ _ H E).
Qed.

Lemma Qgt_bool_false (a b : Q) : Qgt_bool a b = false <-> (a <= b)%Q.
Proof.
  unfold Qgt_bool. rewrite negb_false_iff. apply Qle_bool_iff.
Qed.

Lemma guint_wrap_range (x : Z) : 0 <= guint_wrap x < guint_max.
Proof. unfold guint_wrap, guint_max. apply Z.mod_pos_bound. lia. Qed.

Lemma guint_wrap_small (x : Z) : 0 <= x < guint_max -> guint_wrap x = x.
Proof. unfold guint_wrap. intro H. apply Z.mod_small. exact H. Qed.

Lemma guint_wrap_le (x : Z) : 0 <= x -> guint_wrap x <= x.
Proof.
  unfold guint_wrap, guint_max. intro H. apply Z.mod_le; lia.
Qed.

Lemma guint_inc_small (x : Z) :
  0 <= x -> x + 1 < guint_max -> guint_inc x = x + 1.
Proof. intros. unfold guint_inc. apply guint_wrap_small. lia. Qed.

Lemma Qinv_pos_of_Z (n : Z) : 0 < n -> (0 < 1 / inject_Z n)%Q.
Proof.
  intro H. apply Qlt_shift_div_l.
  - unfold Qlt, inject_Z. simpl. lia.
  - rewrite Qmult_0_l. reflexivity.
Qed.

(** The penalty of a switch shrinks as the run before it grows. *)
Lemma switch_penalty_antitone (n m : Z) :
  0 < n -> n < m -> (1 / inject_Z m < 1 / inject_Z n)%Q.
Proof.
  intros Hn Hm. unfold Qdiv. rewrite !Qmult_1_l.
  unfold Qlt, Qinv, inject_Z.
  destruct n as [|n|n]; try lia. destruct m as [|m|m]; try lia.
  simpl. lia.
Qed.

(** ** The decoder *)

Lemma U8_NEXT_shorter (s : list byte) :
  s <> [] -> (length (snd (U8_NEXT s)) < length s)%nat.
Proof.
  destruct s as [|b0 s1]; [congruence|]. intros _.
  unfold U8_NEXT.
  repeat match goal with
         | |- context [if ?c then _ else _] => destruct c
         | |- context [match ?l with [] => _ | _ :: _ => _ end] =>
           destruct l
         end; simpl; lia.
Qed.

Lemma U8_NEXT_app (s t : list byte) :
  0 <= fst (U8_NEXT s) ->
  U8_NEXT (s ++ t) = (fst (U8_NEXT s), snd (U8_NEXT s) ++ t).
Proof.
  destruct s as [|b0 s1]; [simpl; unfold U_SENTINEL; lia|].
  unfold U8_NEXT. simpl app. cbv beta iota zeta.
  destruct (byte_val b0 <? 0x80); [reflexivity|].
  destruct (in_range 0xc2 0xdf (byte_val b0)).
  { destruct s1 as [|b1 s2]; [simpl; unfold U_SENTINEL; lia|].
    simpl app. cbv beta iota zeta. destruct (U8_IS_TRAIL (byte_val b1)); simpl;
      [reflexivity | unfold U_SENTINEL; lia]. }
  destruct (in_range 0xe0 0xef (byte_val b0)).
  { destruct s1 as [|b1 [|b2 s3]]; try (simpl; unfold U_SENTINEL; lia).
    simpl app. cbv beta iota zeta.
    destruct (U8_LEAD3_T1_OK (byte_val b0) (byte_val b1)
              && U8_IS_TRAIL (byte_val b2)); simpl;
      [reflexivity | unfold U_SENTINEL; lia]. }
  destruct (in_range 0xf0 0xf4 (byte_val b0)).
  { destruct s1 as [|b1 [|b2 [|b3 s4]]]; try (simpl; unfold U_SENTINEL; lia).
    simpl app. cbv beta iota zeta.
    destruct (U8_LEAD4_T1_OK (byte_val b0) (byte_val b1)
              && U8_IS_TRAIL (byte_val b2) && U8_IS_TRAIL (byte_val b3));
      simpl; [reflexivity | unfold U_SENTINEL; lia]. }
  simpl. unfold U_SENTINEL. lia.
Qed.

Section ScanLemmas.
Context {icu : UCharAPI}.

(** The loop over the bytes is the loop body folded over the code points
    the decoder yields. *)
Lemma utf_loop_codepoints (fuel : nat) (is_url : bool) (p : list byte)
      (st : U.locals) :
  utf_loop fuel is_url p st = utf_scan is_url (u8_codepoints fuel p) st.
Proof.
  revert p st. induction fuel as [|fuel IH]; intros p st; [reflexivity|].
  destruct p as [|b p']; [reflexivity|].
  cbn [utf_loop u8_codepoints].
  destruct (U8_NEXT (b :: p')) as [uc rest].
  destruct (uc <? 0); [reflexivity|].
  cbn [utf_scan fold_left]. apply IH.
Qed.

Lemma process_word_utf_scan (w : rspamd_stat_token_t) (is_url : bool)
      (ncap : option Z) (ctx : chartable_ctx) :
  rspamd_chartable_process_word_utf w is_url ncap ctx =
  (utf_finish ctx (utf_scan is_url (codepoints (begin w)) (U.init ncap)),
   U.ncap (utf_scan is_url (codepoints (begin w)) (U.init ncap))).
Proof.
  unfold rspamd_chartable_process_word_utf, codepoints.
  rewrite utf_loop_codepoints. reflexivity.
Qed.

Lemma utf_scan_app (is_url : bool) (xs ys : list Z) (st : U.locals) :
  utf_scan is_url (xs ++ ys) st = utf_scan is_url ys (utf_scan is_url xs st).
Proof. unfold utf_scan. apply fold_left_app. Qed.

End ScanLemmas.

(** Fuel beyond the length of the word changes nothing: a turn of the loop
    consumes a byte at least, so the loop never stops for want of fuel. *)
Lemma u8_codepoints_fuel (f1 f2 : nat) (p : list byte) :
  (length p <= f1)%nat ->
  (length p <= f2)%nat ->
  u8_codepoints f1 p = u8_codepoints f2 p.
Proof.
  revert f2 p. induction f1 as [|f1 IH]; intros f2 p H1 H2.
  - destruct p; [|cbn in H1; lia]. destruct f2; reflexivity.
  - destruct p as [|b p']; [destruct f2; reflexivity|].
    destruct f2 as [|f2]; [cbn in H2; lia|].
    cbn [u8_codepoints].
    pose proof (U8_NEXT_shorter (b :: p') ltac:(congruence)) as Hlt.
    destruct (U8_NEXT (b :: p')) as [uc rest]. cbn [snd] in Hlt.
    destruct (uc <? 0); [reflexivity|]. f_equal.
    cbn [length] in *. apply IH; lia.
Qed.

Lemma utf_loop_fuel {icu : UCharAPI} (fuel : nat) (is_url : bool)
      (p : list byte) (st : U.locals) :
  (length p <= fuel)%nat ->
  utf_loop fuel is_url p st = utf_loop (length p) is_url p st.
Proof.
  intro H. rewrite !utf_loop_codepoints. f_equal.
  apply u8_codepoints_fuel; lia.
Qed.

(** ** Bounds on the word scores *)

Lemma Qle_add_pos (b d : Q) : (0 <= d)%Q -> (b <= b + d)%Q.
Proof.
  intro H. rewrite <- (Qplus_0_r b) at 1.
  apply Qplus_le_r. exact H.
Qed.

Section Bounds.
Context {icu : UCharAPI}.

Lemma utf_alpha_transition_badness_le (is_url : bool) (uc : Z)
      (st : U.locals) :
  (U.badness st <= U.badness (utf_alpha_transition is_url uc st))%Q.
Proof.
  unfold utf_alpha_transition. split_ifs; cbn [U.badness];
    try apply Qle_refl; apply Qle_add_pos;
  first [ qconst
        | apply Qlt_le_weak, Qinv_pos_of_Z; apply Z.ltb_lt; assumption ].
Qed.

Lemma utf_step_badness_le (is_url : bool) (st : U.locals) (uc : Z) :
  (U.badness st <= U.badness (utf_step is_url st uc))%Q.
Proof.
  unfold utf_step.
  destruct (u_isalpha uc); [|destruct (u_isdigit uc)]; cbn [U.badness];
    try apply Qle_refl.
  apply utf_alpha_transition_badness_le.
Qed.

Lemma utf_scan_badness_le (is_url : bool) (cps : list Z) (st : U.locals) :
  (U.badness st <= U.badness (utf_scan is_url cps st))%Q.
Proof.
  revert st. induction cps as [|uc cps IH]; intro st.
  - apply Qle_refl.
  - cbn [utf_scan fold_left].
    eapply Qle_trans; [apply utf_step_badness_le | apply IH].
Qed.

Lemma utf_finish_bounds (ctx : chartable_ctx) (st : U.locals) :
  (0 <= U.badness st)%Q ->
  (0 <= utf_finish ctx st)%Q /\ (utf_finish ctx st <= 4)%Q.
Proof.
  intro H. unfold utf_finish.
  destruct (max_word_len ctx <? U.nsym st).
  - split; qconst.
  - destruct (Qgt_bool (U.badness st) 4) eqn:E.
    + split; [qconst | apply Qle_refl].
    + split; [exact H | apply Qgt_bool_false; exact E].
Qed.

Lemma process_word_utf_bounds (w : rspamd_stat_token_t) (is_url : bool)
      (ncap : option Z) (ctx : chartable_ctx) :
  (0 <= fst (rspamd_chartable_process_word_utf w is_url ncap ctx))%Q /\
  (fst (rspamd_chartable_process_word_utf w is_url ncap ctx) <= 4)%Q.
Proof.
  rewrite process_word_utf_scan. cbn [fst].
  apply utf_finish_bounds.
  eapply Qle_trans; [|apply utf_scan_badness_le].
  cbn [U.init U.badness A.init A.badness]. qconst.
Qed.

Lemma ascii_step_badness_le (is_url : bool) (st : A.locals) (b : byte) :
  (A.badness st <= A.badness (ascii_step is_url st b))%Q.
Proof.
  unfold ascii_step, ascii_alpha_transition. cbv zeta.
  split_ifs; cbn [A.badness]; try apply Qle_refl;
    apply Qle_add_pos;
  first [ qconst
        | apply Qlt_le_weak, Qinv_pos_of_Z; apply Z.ltb_lt; assumption ].
Qed.

Lemma ascii_loop_badness_le (is_url : bool) (p : list byte)
      (st : A.locals) :
  (A.badness st <= A.badness (ascii_loop is_url p st))%Q.
Proof.
  revert st. induction p as [|b p IH]; intro st.
  - apply Qle_refl.
  - cbn [ascii_loop fold_left].
    eapply Qle_trans; [apply ascii_step_badness_le | apply IH].
Qed.

Lemma process_word_ascii_bounds (w : rspamd_stat_token_t) (is_url : bool)
      (ctx : chartable_ctx) :
  (0 <= rspamd_chartable_process_word_ascii w is_url ctx)%Q /\
  (rspamd_chartable_process_word_ascii w is_url ctx <= 4)%Q.
Proof.
  unfold rspamd_chartable_process_word_ascii.
  destruct (max_word_len ctx <? len w); [split; qconst|].
  cbv zeta.
  destruct (Qgt_bool (A.badness (ascii_loop is_url (begin w) A.init)) 4)
           eqn:E.
  - split; [qconst | apply Qle_refl].
  - split; [|apply Qgt_bool_false; exact E].
    eapply Qle_trans; [|apply ascii_loop_badness_le]. cbn [U.init U.badness A.init A.badness]. qconst.
Qed.

(** The count of scanned characters, modulo the width of a [guint]. *)
Lemma utf_step_nsym (is_url : bool) (st : U.locals) (uc : Z) :
  U.nsym (utf_step is_url st uc) = guint_inc (U.nsym st).
Proof.
  unfold utf_step.
  destruct (u_isalpha uc); [|destruct (u_isdigit uc)]; reflexivity.
Qed.

Lemma utf_scan_nsym (is_url : bool) (cps : list Z) (st : U.locals) :
  U.nsym st = guint_wrap (U.nsym st) ->
  U.nsym (utf_scan is_url cps st) =
  guint_wrap (U.nsym st + Z.of_nat (length cps)).
Proof.
  revert st. induction cps as [|uc cps IH]; intros st Hst.
  - cbn [utf_scan fold_left length Z.of_nat]. rewrite Z.add_0_r. exact Hst.
  - cbn [utf_scan fold_left]. fold (utf_scan is_url cps (utf_step is_url st uc)).
    rewrite IH.
    + rewrite utf_step_nsym. unfold guint_inc, guint_wrap.
      rewrite Z.add_mod_idemp_l by (unfold guint_max; lia).
      f_equal. cbn [length]. lia.
    + rewrite utf_step_nsym. unfold guint_inc, guint_wrap.
      rewrite Z.mod_mod by (unfold guint_max; lia). reflexivity.
Qed.

Lemma utf_scan_init_nsym (is_url : bool) (cps : list Z) (ncap : option Z) :
  U.nsym (utf_scan is_url cps (U.init ncap)) =
  guint_wrap (Z.of_nat (length cps)).
Proof.
  rewrite utf_scan_nsym by reflexivity. reflexivity.
Qed.

End Bounds.

(** ** Single turns of the Unicode scorer *)

Section Turns.
Context {icu : UCharAPI}.

Lemma foreign_letter_spec (uc : Z) :
  foreign_letter uc = true <-> u_isalpha uc = true /\ is_latin uc = false.
Proof.
  unfold foreign_letter. rewrite andb_true_iff, negb_true_iff. reflexivity.
Qed.

Lemma latin_letter_spec (uc : Z) :
  latin_letter uc = true <-> u_isalpha uc = true /\ is_latin uc = true.
Proof. unfold latin_letter. apply andb_true_iff. Qed.

Lemma confusable_letter_spec (uc : Z) :
  confusable_letter uc = true <->
  u_isalpha uc = true /\ is_latin uc = false
  /\ rspamd_can_alias_latin uc = true.
Proof.
  unfold confusable_letter. rewrite andb_true_iff, foreign_letter_spec.
  tauto.
Qed.

(** A letter met outside an alphabetic run opens one: the run counter
    and the bucket stay as they are. *)
Lemma step_opening_letter (is_url : bool) (st : U.locals) (uc : Z) :
  u_isalpha uc = true ->
  U.state st <> got_alpha ->
  let st' := utf_step is_url st uc in
  U.state st' = got_alpha
  /\ U.prev_state st' = U.state st
  /\ U.same_script_count st' = U.same_script_count st
  /\ U.last_is_latin st' = U.last_is_latin st.
Proof.
  intros Ha Hs. unfold utf_step. rewrite Ha. cbv zeta.
  unfold utf_alpha_transition.
  destruct (U.state st); try congruence; split_ifs; cbn; auto.
Qed.

Lemma step_opening_letter_badness (is_url : bool) (st : U.locals) (uc : Z) :
  u_isalpha uc = true ->
  U.state st <> got_alpha ->
  U.state st <> got_digit ->
  U.badness (utf_step is_url st uc) = U.badness st.
Proof.
  intros Ha Hs Hd. unfold utf_step. rewrite Ha. cbv zeta.
  unfold utf_alpha_transition.
  destruct (U.state st); try congruence; reflexivity.
Qed.

(** The second letter of a run records the bucket. *)
Lemma step_second_letter (is_url : bool) (st : U.locals) (uc : Z) :
  u_isalpha uc = true ->
  U.state st = got_alpha ->
  U.same_script_count st = 0 ->
  let st' := utf_step is_url st uc in
  U.state st' = got_alpha
  /\ U.badness st' = U.badness st
  /\ U.same_script_count st' = 1
  /\ U.last_is_latin st' = (if is_latin uc then 1 else 0).
Proof.
  intros Ha Hs Hc. unfold utf_step. rewrite Ha. cbv zeta.
  unfold utf_alpha_transition. rewrite Hs, Hc. cbn. auto.
Qed.


Lemma step_latin_letter_tracked (is_url : bool) (st : U.locals) (uc : Z) :
  latin_letter uc = true ->
  U.state st = got_alpha ->
  0 < U.same_script_count st ->
  U.same_script_count st + 1 < guint_max ->
  let st' := utf_step is_url st uc in
  U.state st' = got_alpha
  /\ U.badness st' = U.badness st
  /\ U.same_script_count st' = U.same_script_count st + 1
  /\ U.last_is_latin st' = U.last_is_latin st.
Proof.
  intros Hl Hs Hc Hm. apply latin_letter_spec in Hl. destruct Hl as [Ha Hl].
  unfold utf_step. rewrite Ha. cbv zeta.
  unfold utf_alpha_transition. rewrite Hs, Hl.
  apply Z.ltb_lt in Hc as Hc'. rewrite Hc'. cbn.
  rewrite guint_inc_small by lia. auto.
Qed.

(** Once the bucket is the non-Latin one, no letter of the run is
    penalised. *)
Lemma step_letter_foreign_bucket (is_url : bool) (st : U.locals) (uc : Z) :
  u_isalpha uc = true ->
  U.state st = got_alpha ->
  U.last_is_latin st = 0 ->
  0 < U.same_script_count st ->
  U.same_script_count st + 1 < guint_max ->
  let st' := utf_step is_url st uc in
  U.state st' = got_alpha
  /\ U.badness st' = U.badness st
  /\ U.same_script_count st' = U.same_script_count st + 1
  /\ U.last_is_latin st' = 0.
Proof.
  intros Ha Hs Hl Hc Hm.
  unfold utf_step. rewrite Ha. cbv zeta.
  unfold utf_alpha_transition. rewrite Hs, Hl.
  apply Z.ltb_lt in Hc as Hc'. rewrite Hc'.
  rewrite Z.eqb_refl, andb_false_r. cbn.
  rewrite guint_inc_small by lia. auto.
Qed.

(** The penalised turn: a tracked Latin run meets a confusable letter. *)
Lemma step_confusable_switch (is_url : bool) (st : U.locals) (uc : Z) :
  confusable_letter uc = true ->
  U.state st = got_alpha ->
  0 < U.same_script_count st ->
  U.last_is_latin st <> 0 ->
  let st' := utf_step is_url st uc in
  U.state st' = got_alpha
  /\ U.badness st' =
     (U.badness st + 1 / inject_Z (U.same_script_count st))%Q
  /\ U.same_script_count st' = 1
  /\ U.last_is_latin st' = 0.
Proof.
  intros Hc Hs Hn Hl.
  apply confusable_letter_spec in Hc. destruct Hc as (Ha & Hf & Hal).
  unfold utf_step. rewrite Ha. cbv zeta.
  unfold utf_alpha_transition. rewrite Hs, Hf, Hal.
  apply Z.ltb_lt in Hn as Hn'. rewrite Hn'.
  apply Z.eqb_neq in Hl. rewrite Hl. cbn. auto.
Qed.






End Turns.

(** ** Runs of letters and of digits *)

Section Runs.
Context {icu : UCharAPI}.

Lemma scan_cons (is_url : bool) (uc : Z) (cps : list Z) (st : U.locals) :
  utf_scan is_url (uc :: cps) st =
  utf_scan is_url cps (utf_step is_url st uc).
Proof. reflexivity. Qed.


(** A tracked Latin run grows by one per Latin letter. *)
Lemma latin_run_tracked (is_url : bool) (ls : list Z) (st : U.locals) :
  forallb latin_letter ls = true ->
  U.state st = got_alpha ->
  0 < U.same_script_count st ->
  U.same_script_count st + Z.of_nat (length ls) < guint_max ->
  let st' := utf_scan is_url ls st in
  U.state st' = got_alpha
  /\ U.badness st' = U.badness st
  /\ U.same_script_count st' =
     U.same_script_count st + Z.of_nat (length ls)
  /\ U.last_is_latin st' = U.last_is_latin st.
Proof.
  revert st. induction ls as [|uc ls IH]; intros st Hall Hs Hc Hm.
  - cbn [utf_scan fold_left length Z.of_nat].
    repeat split; auto. lia.
  - cbn [forallb] in Hall. apply andb_true_iff in Hall.
    destruct Hall as [Hl Hall]. cbn [length] in Hm.
    cbv zeta. rewrite scan_cons.
    destruct (step_latin_letter_tracked is_url st uc Hl Hs Hc)
      as (Hs1 & Hb1 & Hc1 & Hl1); [lia|].
    destruct (IH (utf_step is_url st uc) Hall Hs1) as (Hs2 & Hb2 & Hc2 & Hl2);
      [lia | lia |].
    cbn [length]. repeat split; try congruence. lia.
Qed.

(** A run whose bucket is the non-Latin one absorbs any letter. *)
Lemma foreign_bucket_run (is_url : bool) (cps : list Z) (st : U.locals) :
  forallb u_isalpha cps = true ->
  U.state st = got_alpha ->
  U.last_is_latin st = 0 ->
  0 < U.same_script_count st ->
  U.same_script_count st + Z.of_nat (length cps) < guint_max ->
  U.badness (utf_scan is_url cps st) = U.badness st.
Proof.
  revert st. induction cps as [|uc cps IH]; intros st Hall Hs Hl Hc Hm.
  - reflexivity.
  - cbn [forallb] in Hall. apply andb_true_iff in Hall.
    destruct Hall as [Ha Hall]. cbn [length] in Hm. rewrite scan_cons.
    destruct (step_letter_foreign_bucket is_url st uc Ha Hs Hl Hc)
      as (Hs1 & Hb1 & Hc1 & Hl1); [lia|].
    rewrite IH; auto; lia.
Qed.

Lemma alternates_letters (b : bool) (cps : list Z) :
  alternates b cps = true -> forallb u_isalpha cps = true.
Proof.
  revert b. induction cps as [|uc cps IH]; intros b H; [reflexivity|].
  cbn [alternates] in H. apply andb_true_iff in H. destruct H as [H1 H2].
  cbn [forallb]. rewrite (IH _ H2), andb_true_r.
  destruct b.
  - apply latin_letter_spec in H1. tauto.
  - apply confusable_letter_spec in H1. tauto.
Qed.




End Runs.

(** ** Decoding a well-formed prefix *)

Lemma u8_consumed_le (fuel : nat) (p : list byte) :
  (u8_consumed fuel p <= length p)%nat.
Proof.
  revert p. induction fuel as [|fuel IH]; intro p; [cbn; lia|].
  destruct p as [|b p']; [cbn; lia|].
  cbn [u8_consumed].
  pose proof (U8_NEXT_shorter (b :: p') ltac:(congruence)) as Hlt.
  destruct (U8_NEXT (b :: p')) as [uc rest]. cbn [snd] in Hlt.
  destruct (uc <? 0); [lia|].
  specialize (IH rest). lia.
Qed.

(** Bytes that fail to decode, appended to a well-formed prefix, add no
    code point. *)
Lemma u8_codepoints_app_invalid (fuel fuel' : nat) (pre bad : list byte) :
  (length pre <= fuel)%nat ->
  (length (pre ++ bad) <= fuel')%nat ->
  u8_consumed fuel pre = length pre ->
  fst (U8_NEXT bad) < 0 ->
  u8_codepoints fuel' (pre ++ bad) = u8_codepoints fuel pre.
Proof.
  revert fuel' pre. induction fuel as [|fuel IH]; intros fuel' pre Hf Hf' Hc Hbad.
  - destruct pre; [|cbn in Hf; lia]. cbn [app u8_codepoints].
    destruct fuel' as [|fuel'']; [reflexivity|].
    destruct bad as [|b bad']; [reflexivity|].
    cbn [u8_codepoints]. destruct (U8_NEXT (b :: bad')) as [uc rest].
    cbn [fst] in Hbad. apply Z.ltb_lt in Hbad. rewrite Hbad. reflexivity.
  - destruct pre as [|b pre'].
    + cbn [app u8_codepoints].
      destruct fuel' as [|fuel'']; [reflexivity|].
      destruct bad as [|b bad']; [reflexivity|].
      cbn [u8_codepoints]. destruct (U8_NEXT (b :: bad')) as [uc rest].
      cbn [fst] in Hbad. apply Z.ltb_lt in Hbad. rewrite Hbad. reflexivity.
    + destruct fuel' as [|fuel'']; [cbn in Hf'; lia|].
      cbn [u8_consumed] in Hc. cbn [u8_codepoints].
      change ((b :: pre') ++ bad) with (b :: (pre' ++ bad)).
      cbn [u8_codepoints].
      change (b :: (pre' ++ bad)) with ((b :: pre') ++ bad).
      pose proof (U8_NEXT_shorter (b :: pre') ltac:(congruence)) as Hlt.
      pose proof (U8_NEXT_app (b :: pre') bad) as Happ.
      destruct (U8_NEXT (b :: pre')) as [uc rest] eqn:E.
      cbn [fst snd] in Hlt, Happ.
      destruct (uc <? 0) eqn:Euc; [cbn [length] in Hc; lia|].
      apply Z.ltb_ge in Euc as Hge. rewrite (Happ Hge).
      rewrite Euc. f_equal.
      pose proof (u8_consumed_le fuel rest) as Hle.
      cbn [length] in Hc, Hf, Hf', Hlt. rewrite length_app in Hf'.
      apply IH; try assumption.
      * lia.
      * rewrite length_app. cbn [length] in Hf'. lia.
      * lia.
Qed.

Lemma codepoints_app_invalid (pre bad : list byte) :
  well_formed pre = true ->
  fst (U8_NEXT bad) < 0 ->
  codepoints (pre ++ bad) = codepoints pre.
Proof.
  unfold well_formed, codepoints. intros Hwf Hbad.
  apply Nat.eqb_eq in Hwf.
  apply u8_codepoints_app_invalid; auto.
Qed.

Lemma u8_consumed_fuel (f1 f2 : nat) (p : list byte) :
  (length p <= f1)%nat ->
  (length p <= f2)%nat ->
  u8_consumed f1 p = u8_consumed f2 p.
Proof.
  revert f2 p. induction f1 as [|f1 IH]; intros f2 p H1 H2.
  - destruct p; [|cbn in H1; lia]. destruct f2; reflexivity.
  - destruct p as [|b p']; [destruct f2; reflexivity|].
    destruct f2 as [|f2]; [cbn in H2; lia|].
    cbn [u8_consumed].
    pose proof (U8_NEXT_shorter (b :: p') ltac:(congruence)) as Hlt.
    destruct (U8_NEXT (b :: p')) as [uc rest]. cbn [snd] in Hlt.
    destruct (uc <? 0); [reflexivity|]. f_equal.
    cbn [length] in *. apply IH; lia.
Qed.

(** A code point that decodes is read off a prefix of the bytes, whatever
    follows that prefix. *)
Lemma U8_NEXT_split (s : list byte) :
  0 <= fst (U8_NEXT s) ->
  exists enc,
    s = enc ++ snd (U8_NEXT s)
    /\ enc <> []
    /\ forall t, U8_NEXT (enc ++ t) = (fst (U8_NEXT s), t).
Proof.
  destruct s as [|b0 s1]; [simpl; unfold U_SENTINEL; lia|].
  unfold U8_NEXT. cbv beta iota zeta.
  destruct (byte_val b0 <? 0x80) eqn:E1.
  { intros _. exists [b0]. cbn [fst snd app].
    repeat split; [congruence|]. intro t. rewrite E1. reflexivity. }
  destruct (in_range 0xc2 0xdf (byte_val b0)) eqn:E2.
  { destruct s1 as [|b1 s2]; [simpl; unfold U_SENTINEL; lia|].
    destruct (U8_IS_TRAIL (byte_val b1)) eqn:T1;
      [|simpl; unfold U_SENTINEL; lia].
    intros _. exists [b0; b1]. cbn [fst snd app].
    repeat split; [congruence|]. intro t. rewrite E1, E2, T1. reflexivity. }
  destruct (in_range 0xe0 0xef (byte_val b0)) eqn:E3.
  { destruct s1 as [|b1 [|b2 s3]]; try (simpl; unfold U_SENTINEL; lia).
    destruct (U8_LEAD3_T1_OK (byte_val b0) (byte_val b1)
              && U8_IS_TRAIL (byte_val b2)) eqn:T;
      [|simpl; unfold U_SENTINEL; lia].
    intros _. exists [b0; b1; b2]. cbn [fst snd app].
    repeat split; [congruence|]. intro t. rewrite E1, E2, E3, T.
    reflexivity. }
  destruct (in_range 0xf0 0xf4 (byte_val b0)) eqn:E4.
  { destruct s1 as [|b1 [|b2 [|b3 s4]]]; try (simpl; unfold U_SENTINEL; lia).
    destruct (U8_LEAD4_T1_OK (byte_val b0) (byte_val b1)
              && U8_IS_TRAIL (byte_val b2) && U8_IS_TRAIL (byte_val b3)) eqn:T;
      [|simpl; unfold U_SENTINEL; lia].
    intros _. exists [b0; b1; b2; b3]. cbn [fst snd app].
    repeat split; [congruence|]. intro t. rewrite E1, E2, E3, E4, T.
    reflexivity. }
  simpl. unfold U_SENTINEL. lia.
Qed.

(** Every byte string is a well-formed prefix followed by nothing or by
    bytes that fail to decode. *)
Lemma split_at_first_failure (fuel : nat) (p : list byte) :
  (length p <= fuel)%nat ->
  exists pre bad,
    p = pre ++ bad
    /\ well_formed pre = true
    /\ (bad = [] \/ fst (U8_NEXT bad) < 0).
Proof.
  revert p. induction fuel as [|fuel IH]; intros p Hf.
  - destruct p; [|cbn in Hf; lia]. exists [], []. auto.
  - destruct p as [|b p']; [exists [], []; auto|].
    destruct (Z.ltb_spec (fst (U8_NEXT (b :: p'))) 0) as [Hneg | Hpos].
    + exists [], (b :: p'). auto.
    + destruct (U8_NEXT_split (b :: p') Hpos) as (enc & Hs & Hne & Hdec).
      pose proof (U8_NEXT_shorter (b :: p') ltac:(congruence)) as Hlt.
      destruct (IH (snd (U8_NEXT (b :: p')))) as (pre & bad & Hr & Hwf & Hb).
      { cbn [length] in Hf, Hlt. lia. }
      exists (enc ++ pre), bad. split; [|split; [|exact Hb]].
      * rewrite <- app_assoc, <- Hr. exact Hs.
      * unfold well_formed in *. apply Nat.eqb_eq in Hwf.
        apply Nat.eqb_eq.
        destruct enc as [|e enc']; [congruence|].
        change (length ((e :: enc') ++ pre))
          with (S (length (enc' ++ pre))).
        change ((e :: enc') ++ pre) with (e :: (enc' ++ pre)).
        cbn [u8_consumed].
        change (e :: (enc' ++ pre)) with ((e :: enc') ++ pre).
        rewrite Hdec.
        apply Z.ltb_ge in Hpos. rewrite Hpos.
        rewrite (u8_consumed_fuel _ (length pre) pre);
          [| rewrite length_app; lia | lia].
        rewrite Hwf. rewrite !length_app. cbn [length]. lia.
Qed.

(** ** Single turns of the byte scorer *)

Section ByteTurns.











End ByteTurns.

(** ** The aggregators *)

Section Aggregation.
Context {icu : UCharAPI} {txt : TextAPI}.



Lemma average_capped_le_2 (s : Q) (n : nat) : (average_capped s n <= 2)%Q.
Proof.
  unfold average_capped. cbv zeta.
  destruct (Qgt_bool (s / inject_Z (Z.of_nat n)) 2) eqn:E.
  - apply Qle_refl.
  - apply Qgt_bool_false. exact E.
Qed.

(** What a call on a part with words does to the result log. *)
Lemma process_part_results (results : list detection)
      (p : rspamd_mime_text_part) (ws : list rspamd_stat_token_t)
      (ctx : chartable_ctx) :
  normalized_words p = Some ws ->
  ws <> [] ->
  fst (rspamd_chartable_process_part results (Some p) ctx) =
  let avg :=
    average_capped (fst (part_words_loop ctx (is_part_utf p) ws))
                   (length ws) in
  if Qgt_bool avg (threshold ctx)
  then rspamd_task_insert_result results (symbol ctx) avg None
  else results.
Proof.
  intros Hw Hne. unfold rspamd_chartable_process_part. rewrite Hw.
  destruct ws as [|w ws']; [congruence|].
  destruct (part_words_loop ctx (is_part_utf p) (w :: ws')) as [s n].
  cbv zeta. cbn [fst].
  destruct (Qgt_bool (average_capped s (length (w :: ws'))) (threshold ctx));
    reflexivity.
Qed.

(** A call on a part appends at most one detection, capped at [2.0]. *)
Lemma process_part_appends (results : list detection)
      (part : option rspamd_mime_text_part) (ctx : chartable_ctx) :
  exists news,
    fst (rspamd_chartable_process_part results part ctx) = results ++ news
    /\ Forall (fun d => (d_score d <= 2)%Q) news.
Proof.
  assert (Hnil : exists news, results = results ++ news
                 /\ Forall (fun d => (d_score d <= 2)%Q) news).
  { exists []. rewrite app_nil_r. auto. }
  destruct part as [p|]; [|exact Hnil].
  destruct (normalized_words p) as [ws|] eqn:Hw;
    [|unfold rspamd_chartable_process_part; rewrite Hw; exact Hnil].
  destruct ws as [|w ws'];
    [unfold rspamd_chartable_process_part; rewrite Hw; exact Hnil|].
  rewrite (process_part_results results p (w :: ws') ctx Hw) by congruence.
  cbv zeta.
  destruct (Qgt_bool _ (threshold ctx)); [|exact Hnil].
  unfold rspamd_task_insert_result. eexists. split; [reflexivity|].
  constructor; [|constructor]. cbn [d_score]. apply average_capped_le_2.
Qed.

Lemma process_parts_appends (parts : list (option rspamd_mime_text_part))
      (results : list detection) (ctx : chartable_ctx) :
  exists news,
    fst (process_parts results parts ctx) = results ++ news
    /\ Forall (fun d => (d_score d <= 2)%Q) news.
Proof.
  revert results. induction parts as [|part parts IH]; intro results.
  - exists []. cbn. rewrite app_nil_r. auto.
  - cbn [process_parts].
    destruct (process_part_appends results part ctx) as (n1 & E1 & F1).
    destruct (rspamd_chartable_process_part results part ctx)
      as [results1 part'].
    destruct (IH results1) as (n2 & E2 & F2).
    destruct (process_parts results1 parts ctx) as [results2 parts''].
    cbn [fst] in *. exists (n1 ++ n2). subst results1 results2.
    rewrite app_assoc. split; [reflexivity|].
    apply Forall_app. auto.
Qed.

Lemma process_subject_appends (results : list detection)
      (subj : option (list byte)) (ctx : chartable_ctx) :
  exists news,
    process_subject results subj ctx = results ++ news
    /\ Forall (fun d => (d_score d <= 2)%Q) news.
Proof.
  assert (Hnil : exists news, results = results ++ news
                 /\ Forall (fun d => (d_score d <= 2)%Q) news).
  { exists []. rewrite app_nil_r. auto. }
  unfold process_subject.
  destruct subj as [s|]; [|exact Hnil].
  destruct (rspamd_tokenize_text s) as [[|w ws]|]; try exact Hnil.
  destruct (Qgt_bool _ (threshold ctx)); [|exact Hnil].
  unfold rspamd_task_insert_result. eexists. split; [reflexivity|].
  constructor; [|constructor]. cbn [d_score]. apply average_capped_le_2.
Qed.

Lemma symbol_callback_appends (task : rspamd_task) (ctx : chartable_ctx) :
  exists news,
    results (chartable_symbol_callback task ctx) = results task ++ news
    /\ Forall (fun d => (d_score d <= 2)%Q) news.
Proof.
  unfold chartable_symbol_callback.
  destruct (process_parts_appends (text_parts task) (results task) ctx)
    as (n1 & E1 & F1).
  destruct (process_parts (results task) (text_parts task) ctx)
    as [results1 parts'].
  cbn [results fst] in *.
  destruct (process_subject_appends results1 (subject task) ctx)
    as (n2 & E2 & F2).
  exists (n1 ++ n2). rewrite E2, E1, app_assoc. split; [reflexivity|].
  apply Forall_app. auto.
Qed.

Lemma logged_since_app (before news : list detection) :
  logged_since before (before ++ news) = news.
Proof.
  unfold logged_since. induction before as [|d before IH]; [reflexivity|].
  exact IH.
Qed.

(** The hostname callback logs at most one detection, and logs it under
    [symbol]. *)
Lemma url_callback_results (task : rspamd_task) (ctx : chartable_ctx) :
  results (chartable_url_symbol_callback task ctx) = results task
  \/ exists score,
      results (chartable_url_symbol_callback task ctx) =
      results task
      ++ [{| d_symbol := symbol ctx; d_score := score; d_option := None |}].
Proof.
  unfold chartable_url_symbol_callback. cbv zeta. cbn [results].
  destruct (Qgt_bool _ (threshold ctx)); [right | left; reflexivity].
  eexists. reflexivity.
Qed.

End Aggregation.

(** * The claims *)

(** ** C1: the symbol of the hostname detection *)

(** C1.  The hostname callback is run on one URL whose host is "paypal"
    with a Cyrillic letter for its "y", under the configuration with no
    option set.  It logs one detection of score 1, with no option, and
    logs it under the body symbol "R_MIXED_CHARSET": the configured
    [url_symbol], "R_MIXED_CHARSET_URL", is not the name it uses. *)
Theorem url_detection_uses_body_symbol :
  results (chartable_url_symbol_callback one_lookalike_host default_ctx) =
  [{| d_symbol := Some "R_MIXED_CHARSET"%string; d_score := 1;
      d_option := None |}]
  /\ url_symbol default_ctx = Some "R_MIXED_CHARSET_URL"%string
  /\ symbol default_ctx <> url_symbol default_ctx.
Proof.
  split; [vm_compute; reflexivity|].
  split; [reflexivity|].
  vm_compute. discriminate.
Qed.

(** ** C2: the word of a Greek omega and "indow" *)

Lemma utf_finish_zero {icu : UCharAPI} (ctx : chartable_ctx) (st : U.locals) :
  U.badness st = 0%Q -> utf_finish ctx st = 0%Q.
Proof.
  intro H. unfold utf_finish. rewrite H.
  destruct (max_word_len ctx <? U.nsym st); reflexivity.
Qed.





(** ** C3: the caps *)

(** C3.  Either word scorer returns at most 4, and every detection the
    body-text callback adds (for a part or for the subject) has a score of
    at most 2.  The hostname callback has no such bound: it tests its sum
    against 2 on entering a turn of a loop, never after the last addition,
    and on three hosts that score 1 each it logs a detection of score 3. *)
Theorem caps_hold_except_for_hostnames :
  (forall (icu : UCharAPI) w is_url ncap ctx,
      (fst (rspamd_chartable_process_word_utf w is_url ncap ctx) <= 4)%Q)
  /\ (forall w is_url ctx,
         (rspamd_chartable_process_word_ascii w is_url ctx <= 4)%Q)
  /\ (forall (icu : UCharAPI) (txt : TextAPI) task ctx,
         Forall (fun d => (d_score d <= 2)%Q)
                (logged_since (results task)
                              (results (chartable_symbol_callback task ctx))))
  /\ map d_score
         (results (chartable_url_symbol_callback three_lookalike_hosts
                                                 default_ctx)) = [3%Q]
  /\ (2 < 3)%Q.
Proof.
  split; [|split; [|split; [|split]]].
  - intros. apply process_word_utf_bounds.
  - intros. apply process_word_ascii_bounds.
  - intros icu' txt' task ctx.
    destruct (@symbol_callback_appends icu' txt' task ctx) as (news & E & F).
    rewrite E, logged_since_app. exact F.
  - vm_compute. reflexivity.
  - reflexivity.
Qed.

(** ** C4: the penalty of a switch to a confusable letter *)

Lemma Qinv_of_Z_le_1 (k : Z) : 0 < k -> (1 / inject_Z k <= 1)%Q.
Proof.
  intro H. unfold Qdiv. rewrite Qmult_1_l.
  unfold Qle, Qinv, inject_Z. destruct k as [|k|k]; try lia.
  simpl. lia.
Qed.

(** A word within [max_word_len] keeps the badness its scan ends with, as
    long as that is within the cap. *)
Lemma utf_finish_short {icu : UCharAPI} (ctx : chartable_ctx)
      (is_url : bool) (cps : list Z) (ncap : option Z) :
  Z.of_nat (length cps) <= max_word_len ctx ->
  (U.badness (utf_scan is_url cps (U.init ncap)) <= 4)%Q ->
  utf_finish ctx (utf_scan is_url cps (U.init ncap)) =
  U.badness (utf_scan is_url cps (U.init ncap)).
Proof.
  intros Hlen Hb. unfold utf_finish. rewrite utf_scan_init_nsym.
  pose proof (guint_wrap_le (Z.of_nat (length cps)) ltac:(lia)) as Hw.
  destruct (max_word_len ctx <? guint_wrap (Z.of_nat (length cps))) eqn:E;
    [apply Z.ltb_lt in E; lia|].
  apply Qgt_bool_false in Hb. rewrite Hb. reflexivity.
Qed.

(** The state after the first letter of a word. *)
Lemma scan_first_letter {icu : UCharAPI} (is_url : bool) (x : Z)
      (ncap : option Z) :
  u_isalpha x = true ->
  let st := utf_step is_url (U.init ncap) x in
  U.state st = got_alpha /\ U.badness st = 0%Q
  /\ U.same_script_count st = 0 /\ U.last_is_latin st = -1.
Proof.
  intro Hx.
  assert (Hs0 : U.state (U.init ncap) <> got_alpha) by (cbn; congruence).
  assert (Hd0 : U.state (U.init ncap) <> got_digit) by (cbn; congruence).
  destruct (step_opening_letter is_url (U.init ncap) x Hx Hs0)
    as (Hs & _ & Hc & Hl).
  pose proof (step_opening_letter_badness is_url (U.init ncap) x Hx Hs0 Hd0)
    as Hb.
  cbv zeta. auto.
Qed.

(** One letter, [n] Latin letters, one confusable letter: the scan ends
    with the penalty [1 / n]. *)
Lemma scan_run_then_confusable {icu : UCharAPI} (is_url : bool) (x : Z)
      (ls : list Z) (c : Z) (ncap : option Z) :
  u_isalpha x = true ->
  ls <> [] ->
  forallb latin_letter ls = true ->
  confusable_letter c = true ->
  Z.of_nat (length ls) < guint_max ->
  U.badness (utf_scan is_url (x :: ls ++ [c]) (U.init ncap)) =
  (0 + 1 / inject_Z (Z.of_nat (length ls)))%Q.
Proof.
  intros Hx Hne Hls Hc Hm.
  destruct ls as [|l0 ls']; [congruence|].
  cbn [forallb] in Hls. apply andb_true_iff in Hls. destruct Hls as [Hl0 Hls].
  rewrite scan_cons.
  destruct (scan_first_letter is_url x ncap Hx) as (Hs1 & Hb1 & Hc1 & _).
  change ((l0 :: ls') ++ [c]) with (l0 :: (ls' ++ [c])). rewrite scan_cons.
  apply latin_letter_spec in Hl0 as Hl0'. destruct Hl0' as [Ha0 Hlat0].
  destruct (step_second_letter is_url _ l0 Ha0 Hs1 Hc1)
    as (Hs2 & Hb2 & Hc2 & Hl2).
  rewrite Hlat0 in Hl2.
  rewrite utf_scan_app.
  cbn [length] in Hm.
  destruct (latin_run_tracked is_url ls' _ Hls Hs2) as (Hs3 & Hb3 & Hc3 & Hl3);
    [lia | lia |].
  cbn [utf_scan fold_left].
  unfold utf_scan in *.
  destruct (step_confusable_switch is_url _ c Hc Hs3) as (_ & Hb4 & _).
  - rewrite Hc3, Hc2. lia.
  - rewrite Hl3, Hl2. lia.
  - rewrite Hb4, Hb3, Hb2, Hb1, Hc3, Hc2.
    cbn [length]. rewrite Nat2Z.inj_succ. unfold Z.succ.
    rewrite (Z.add_comm 1). reflexivity.
Qed.

(** A word that alternates, the Latin letter first. *)
Lemma scan_alternates_latin_first {icu : UCharAPI} (is_url : bool)
      (cps : list Z) (ncap : option Z) :
  alternates true cps = true ->
  Z.of_nat (length cps) < guint_max ->
  U.badness (utf_scan is_url cps (U.init ncap)) = 0%Q.
Proof.
  intros Halt Hm.
  destruct cps as [|l cps1]; [reflexivity|].
  cbn [alternates negb] in Halt. apply andb_true_iff in Halt.
  destruct Halt as [Hl Halt]. apply latin_letter_spec in Hl.
  destruct Hl as [Hal _]. rewrite scan_cons.
  destruct (scan_first_letter is_url l ncap Hal) as (Hs1 & Hb1 & Hc1 & _).
  destruct cps1 as [|c cps2]; [exact Hb1|].
  pose proof (alternates_letters _ _ Halt) as Hletters.
  cbn [alternates negb] in Halt. apply andb_true_iff in Halt.
  destruct Halt as [Hc Halt]. apply confusable_letter_spec in Hc.
  destruct Hc as (Hac & Hfc & _). rewrite scan_cons.
  destruct (step_second_letter is_url _ c Hac Hs1 Hc1)
    as (Hs2 & Hb2 & Hc2 & Hl2).
  rewrite Hfc in Hl2.
  cbn [forallb] in Hletters. apply andb_true_iff in Hletters.
  destruct Hletters as [_ Hletters]. cbn [length] in Hm.
  rewrite foreign_bucket_run; auto; [congruence | lia | lia].
Qed.

(** A word of three characters or more that alternates, the confusable
    letter first. *)
Lemma scan_alternates_confusable_first {icu : UCharAPI} (is_url : bool)
      (cps : list Z) (ncap : option Z) :
  alternates false cps = true ->
  (3 <= length cps)%nat ->
  Z.of_nat (length cps) < guint_max ->
  U.badness (utf_scan is_url cps (U.init ncap)) = (0 + 1 / inject_Z 1)%Q.
Proof.
  intros Halt H3 Hm.
  destruct cps as [|c [|l [|c' rest]]]; cbn [length] in H3; try lia.
  pose proof (alternates_letters _ _ Halt) as Hletters.
  cbn [alternates negb] in Halt.
  apply andb_true_iff in Halt. destruct Halt as [Hc Halt].
  apply andb_true_iff in Halt. destruct Halt as [Hl Halt].
  apply andb_true_iff in Halt. destruct Halt as [Hc' Halt].
  apply confusable_letter_spec in Hc. destruct Hc as (Hac & _ & _).
  apply latin_letter_spec in Hl. destruct Hl as [Hal Hlat].
  rewrite !scan_cons.
  destruct (scan_first_letter is_url c ncap Hac) as (Hs1 & Hb1 & Hc1 & _).
  destruct (step_second_letter is_url _ l Hal Hs1 Hc1)
    as (Hs2 & Hb2 & Hc2 & Hl2).
  rewrite Hlat in Hl2.
  destruct (step_confusable_switch is_url _ c' Hc' Hs2)
    as (Hs3 & Hb3 & Hc3 & Hl3); [lia | lia |].
  cbn [forallb] in Hletters.
  apply andb_true_iff in Hletters. destruct Hletters as [_ Hletters].
  apply andb_true_iff in Hletters. destruct Hletters as [_ Hletters].
  apply andb_true_iff in Hletters. destruct Hletters as [_ Hletters].
  cbn [length] in Hm.
  rewrite foreign_bucket_run; auto; [|lia|lia].
  rewrite Hb3, Hb2, Hb1, Hc2. reflexivity.
Qed.

(** C4, as the code has it.  (1) When a tracked Latin run meets a non-Latin
    letter of the Confusable Set, exactly [1 / run length] is added and
    the run restarts at length 1 in the non-Latin bucket.  (2) That
    penalty shrinks strictly as the run grows.  (3) A word within
    [max_word_len] made of one letter, [n] Latin letters and one such
    confusable letter scores [1 / n].  (4) A word within [max_word_len]
    that alternates the two kinds of letters scores 0 when the Latin
    letter comes first, and 1 when the confusable letter comes first and
    the word has three characters or more.  (5) Every word scores between
    0 and 4. *)
Theorem confusable_switch_penalty {icu : UCharAPI} :
  (forall is_url st uc,
      confusable_letter uc = true ->
      U.state st = got_alpha ->
      0 < U.same_script_count st ->
      U.last_is_latin st <> 0 ->
      U.badness (utf_step is_url st uc) =
      (U.badness st + 1 / inject_Z (U.same_script_count st))%Q
      /\ U.same_script_count (utf_step is_url st uc) = 1
      /\ U.last_is_latin (utf_step is_url st uc) = 0)
  /\ (forall n m, 0 < n -> n < m -> (1 / inject_Z m < 1 / inject_Z n)%Q)
  /\ (forall w is_url ncap ctx x ls c,
         codepoints (begin w) = x :: ls ++ [c] ->
         u_isalpha x = true ->
         ls <> [] ->
         forallb latin_letter ls = true ->
         confusable_letter c = true ->
         Z.of_nat (length ls) + 2 <= max_word_len ctx ->
         max_word_len ctx < guint_max ->
         (fst (rspamd_chartable_process_word_utf w is_url ncap ctx) ==
          1 / inject_Z (Z.of_nat (length ls)))%Q)
  /\ (forall w is_url ncap ctx,
         Z.of_nat (length (codepoints (begin w))) <= max_word_len ctx ->
         max_word_len ctx < guint_max ->
         (alternates true (codepoints (begin w)) = true ->
          fst (rspamd_chartable_process_word_utf w is_url ncap ctx) = 0%Q)
         /\ (alternates false (codepoints (begin w)) = true ->
             (3 <= length (codepoints (begin w)))%nat ->
             (fst (rspamd_chartable_process_word_utf w is_url ncap ctx) == 1)%Q))
  /\ (forall w is_url ncap ctx,
         (0 <= fst (rspamd_chartable_process_word_utf w is_url ncap ctx))%Q
         /\ (fst (rspamd_chartable_process_word_utf w is_url ncap ctx) <= 4)%Q).
Proof.
  split; [|split; [|split; [|split]]].
  - intros is_url st uc Hc Hs Hn Hl.
    destruct (step_confusable_switch is_url st uc Hc Hs Hn Hl)
      as (_ & Hb & Hc' & Hl'). auto.
  - exact switch_penalty_antitone.
  - intros w is_url ncap ctx x ls c Hw Hx Hne Hls Hc Hlen Hmax.
    rewrite process_word_utf_scan, Hw. cbn [fst].
    pose proof (scan_run_then_confusable is_url x ls c ncap Hx Hne Hls Hc
                                         ltac:(lia)) as Hb.
    assert (Hpos : 0 < Z.of_nat (length ls)).
    { destruct ls; [congruence | cbn [length]; lia]. }
    rewrite utf_finish_short.
    + rewrite Hb. apply Qplus_0_l.
    + cbn [length]. rewrite length_app. cbn [length]. lia.
    + rewrite Hb, Qplus_0_l.
      eapply Qle_trans; [apply Qinv_of_Z_le_1; exact Hpos | qconst].
  - intros w is_url ncap ctx Hlen Hmax. split.
    + intro Halt. rewrite process_word_utf_scan. cbn [fst].
      apply utf_finish_zero.
      apply scan_alternates_latin_first; [exact Halt | lia].
    + intros Halt H3. rewrite process_word_utf_scan. cbn [fst].
      pose proof (scan_alternates_confusable_first
                    is_url _ ncap Halt H3 ltac:(lia)) as Hb.
      rewrite utf_finish_short; [rewrite Hb; reflexivity | exact Hlen |].
      rewrite Hb. qconst.
  - intros. apply process_word_utf_bounds.
Qed.

(** The five parts at concrete words: a tracked Latin run of length 2, the
    runs 1 and 2, the word "xab" and U+0430, the two alternating words. *)
Lemma confusable_switch_penalty_examples :
  (U.badness
     (utf_step false
        {| U.badness := 0; U.last_is_latin := 1; U.same_script_count := 2;
           U.nsym := 3; U.state := got_alpha; U.prev_state := got_alpha;
           U.ncap := None |} 0x430) = (0 + 1 / inject_Z 2)%Q)
  /\ (1 / inject_Z 2 < 1 / inject_Z 1)%Q
  /\ (fst (rspamd_chartable_process_word_utf run_then_cyrillic_word false
             None default_ctx) == 1 / inject_Z 2)%Q
  /\ fst (rspamd_chartable_process_word_utf latin_cyrillic_word false None
            default_ctx) = 0%Q
  /\ (fst (rspamd_chartable_process_word_utf cyrillic_latin_word false None
             default_ctx) == 1)%Q.
Proof.
  destruct (@confusable_switch_penalty ucd_sample) as (T1 & T2 & T3 & T4 & _).
  split; [|split; [|split; [|split]]].
  - apply (T1 false
              {| U.badness := 0; U.last_is_latin := 1;
                 U.same_script_count := 2; U.nsym := 3; U.state := got_alpha;
                 U.prev_state := got_alpha; U.ncap := None |} 0x430).
    + vm_compute. reflexivity.
    + reflexivity.
    + simpl. lia.
    + simpl. lia.
  - apply (T2 1 2); lia.
  - apply (T3 run_then_cyrillic_word false None default_ctx
              0x78 [0x61; 0x62] 0x430).
    + vm_compute. reflexivity.
    + reflexivity.
    + discriminate.
    + reflexivity.
    + vm_compute. reflexivity.
    + vm_compute. discriminate.
    + vm_compute. reflexivity.
  - apply (T4 latin_cyrillic_word false None default_ctx).
    + vm_compute. discriminate.
    + vm_compute. reflexivity.
    + vm_compute. reflexivity.
  - apply (T4 cyrillic_latin_word false None default_ctx).
    + vm_compute. discriminate.
    + vm_compute. reflexivity.
    + vm_compute. reflexivity.
    + vm_compute. lia.
Defined.

(** C4, as stated, fails: the word "a", U+0430, "a", U+0430 alternates a
    Latin letter and a member of the Confusable Set at every character and
    has four characters, within [max_word_len] 10, yet its badness is 0,
    not greater than 0. *)
Lemma alternating_word_scores_nothing :
  alternates true (codepoints (begin latin_cyrillic_word)) = true
  /\ forallb rspamd_can_alias_latin [0x430] = true
  /\ Z.of_nat (length (codepoints (begin latin_cyrillic_word)))
     <= max_word_len default_ctx
  /\ fst (rspamd_chartable_process_word_utf latin_cyrillic_word false None
            default_ctx) = 0%Q.
Proof.
  split; [vm_compute; reflexivity|].
  split; [vm_compute; reflexivity|].
  split; [vm_compute; discriminate|].
  vm_compute. reflexivity.
Qed.

(** ** C5: words longer than [max_word_len] *)

Lemma u8_codepoints_length (fuel : nat) (p : list byte) :
  (length (u8_codepoints fuel p) <= fuel)%nat.
Proof.
  revert p. induction fuel as [|fuel IH]; intro p; [cbn; lia|].
  destruct p as [|b p']; [cbn; lia|].
  cbn [u8_codepoints]. destruct (U8_NEXT (b :: p')) as [uc rest].
  destruct (uc <? 0); [cbn; lia|].
  cbn [length]. specialize (IH rest). lia.
Qed.

(** C5.  A word with more decoded code points than [max_word_len] scores
    exactly 0 in the Unicode scorer, which has scanned it all the same (the
    [ncap] cell it hands back is the one the scan ends with); a word with
    more bytes than [max_word_len] scores exactly 0 in the byte scorer,
    which has not scanned it.  The word is shorter than 2^32 bytes, so the
    [guint] that counts its characters does not wrap. *)
Theorem long_word_scores_zero {icu : UCharAPI}
        (w : rspamd_stat_token_t) (is_url : bool) (ncap : option Z)
        (ctx : chartable_ctx) :
  (len w < guint_max ->
   max_word_len ctx < Z.of_nat (length (codepoints (begin w))) ->
   fst (rspamd_chartable_process_word_utf w is_url ncap ctx) = 0%Q
   /\ snd (rspamd_chartable_process_word_utf w is_url ncap ctx) =
      U.ncap (utf_scan is_url (codepoints (begin w)) (U.init ncap)))
  /\ (max_word_len ctx < len w ->
      rspamd_chartable_process_word_ascii w is_url ctx = 0%Q).
Proof.
  split.
  - intros Hlen Hlong. rewrite process_word_utf_scan. cbn [fst snd].
    split; [|reflexivity].
    unfold utf_finish. rewrite utf_scan_init_nsym.
    pose proof (u8_codepoints_length (length (begin w)) (begin w)) as Hle.
    fold (codepoints (begin w)) in Hle. unfold len in Hlen.
    rewrite guint_wrap_small by lia.
    apply Z.ltb_lt in Hlong. rewrite Hlong. reflexivity.
  - intro Hlong. unfold rspamd_chartable_process_word_ascii.
    apply Z.ltb_lt in Hlong. rewrite Hlong. reflexivity.
Qed.

(** A word of eleven characters under [max_word_len] 10. *)
Lemma long_word_scores_zero_eleven :
  max_word_len default_ctx = 10
  /\ length (codepoints (begin eleven_letters)) = 11%nat
  /\ fst (rspamd_chartable_process_word_utf eleven_letters false None
            default_ctx) = 0%Q
  /\ rspamd_chartable_process_word_ascii eleven_letters false default_ctx
     = 0%Q.
Proof.
  destruct (long_word_scores_zero eleven_letters false None default_ctx)
    as [Hu Ha].
  split; [reflexivity|]. split; [vm_compute; reflexivity|]. split.
  - apply Hu; vm_compute; reflexivity.
  - apply Ha. vm_compute. reflexivity.
Defined.

(** ** C6: digits followed by a letter *)




(** ** C7: the average of a part *)

Lemma average_capped_spec (s : Q) (n : nat) :
  (average_capped s n == Qmin (s / inject_Z (Z.of_nat n)) 2)%Q.
Proof.
  unfold average_capped. cbv zeta.
  destruct (Qgt_bool (s / inject_Z (Z.of_nat n)) 2) eqn:E.
  - apply Qgt_bool_true in E. symmetry. apply Q.min_r.
    apply Qlt_le_weak. exact E.
  - apply Qgt_bool_false in E. symmetry. apply Q.min_l. exact E.
Qed.



(** ** C8: a code point that fails to decode *)

(** C8.  When the bytes after a well-formed prefix fail to decode (an
    ill-formed or a truncated sequence), the Unicode scorer returns what it
    returns on the prefix alone, badness and [ncap] cell both: the scan
    ends at the failure, the length test and the cap are applied to what
    was scanned, and the result is a plain score.  Every word is such a
    prefix followed by nothing or by bytes that fail to decode. *)
Theorem invalid_code_point_ends_scan {icu : UCharAPI} :
  (forall (pre bad : list byte) (fl : Z) (is_url : bool) (ncap : option Z)
          (ctx : chartable_ctx),
      well_formed pre = true ->
      fst (U8_NEXT bad) < 0 ->
      rspamd_chartable_process_word_utf
        {| begin := pre ++ bad; flags := fl |} is_url ncap ctx =
      rspamd_chartable_process_word_utf
        {| begin := pre; flags := fl |} is_url ncap ctx)
  /\ (forall p : list byte,
         exists pre bad,
           p = pre ++ bad
           /\ well_formed pre = true
           /\ (bad = [] \/ fst (U8_NEXT bad) < 0)).
Proof.
  split.
  - intros pre bad fl is_url ncap ctx Hwf Hbad.
    rewrite !process_word_utf_scan. cbn [begin].
    rewrite (codepoints_app_invalid pre bad Hwf Hbad). reflexivity.
  - intro p. apply (split_at_first_failure (length p)). lia.
Qed.

(** A truncated tail and an invalid tail after "aa" and U+0430: the score
    is the prefix's, 1. *)
Lemma invalid_code_point_ends_scan_examples :
  (rspamd_chartable_process_word_utf
     {| begin := well_formed_prefix ++ truncated_tail; flags := 1 |}
     false (Some 0) default_ctx =
   rspamd_chartable_process_word_utf
     {| begin := well_formed_prefix; flags := 1 |} false (Some 0) default_ctx)
  /\ (rspamd_chartable_process_word_utf
        {| begin := well_formed_prefix ++ invalid_tail; flags := 1 |}
        false (Some 0) default_ctx =
      rspamd_chartable_process_word_utf
        {| begin := well_formed_prefix; flags := 1 |} false (Some 0)
        default_ctx)
  /\ rspamd_chartable_process_word_utf
       {| begin := well_formed_prefix; flags := 1 |} false (Some 0)
       default_ctx = (1%Q, Some 0).
Proof.
  destruct (@invalid_code_point_ends_scan ucd_sample) as [T _].
  split; [|split].
  - apply (T well_formed_prefix truncated_tail 1 false (Some 0) default_ctx).
    + reflexivity.
    + vm_compute. reflexivity.
  - apply (T well_formed_prefix invalid_tail 1 false (Some 0) default_ctx).
    + reflexivity.
    + vm_compute. reflexivity.
  - vm_compute. reflexivity.
Defined.

(** ** C9: the first letter of a run is not counted *)

(** Outside an alphabetic run the run counter is 0. *)
Lemma scan_counter_zero_outside_run {icu : UCharAPI} (is_url : bool)
      (cps : list Z) (st : U.locals) :
  (U.state st <> got_alpha -> U.same_script_count st = 0) ->
  U.state (utf_scan is_url cps st) <> got_alpha ->
  U.same_script_count (utf_scan is_url cps st) = 0.
Proof.
  revert st. induction cps as [|uc cps IH]; intros st Hinv; [exact Hinv|].
  rewrite scan_cons. apply IH. unfold utf_step.
  destruct (u_isalpha uc); [cbn; congruence|].
  destruct (u_isdigit uc); reflexivity.
Qed.

(** C9.  The letter that opens an alphabetic run, at the start of the word
    or after digits or other characters, leaves the run counter at 0 and
    the bucket as it was; the second letter of the run sets the counter to
    1 and records the bucket, Latin or not, with no penalty.  So a word of
    two letters scores 0, whatever the letters, a Latin letter and a
    confusable one included. *)
Theorem first_letter_leaves_run_untracked {icu : UCharAPI} :
  (forall is_url cps uc ncap,
      u_isalpha uc = true ->
      U.state (utf_scan is_url cps (U.init ncap)) <> got_alpha ->
      U.same_script_count (utf_scan is_url (cps ++ [uc]) (U.init ncap)) = 0
      /\ U.last_is_latin (utf_scan is_url (cps ++ [uc]) (U.init ncap)) =
         U.last_is_latin (utf_scan is_url cps (U.init ncap)))
  /\ (forall is_url c1 c2 ncap,
         u_isalpha c1 = true ->
         u_isalpha c2 = true ->
         U.same_script_count (utf_step is_url (U.init ncap) c1) = 0
         /\ U.last_is_latin (utf_step is_url (U.init ncap) c1) = -1
         /\ U.badness (utf_scan is_url [c1; c2] (U.init ncap)) = 0%Q
         /\ U.same_script_count (utf_scan is_url [c1; c2] (U.init ncap)) = 1
         /\ U.last_is_latin (utf_scan is_url [c1; c2] (U.init ncap)) =
            (if is_latin c2 then 1 else 0))
  /\ (forall w is_url ncap ctx c1 c2,
         codepoints (begin w) = [c1; c2] ->
         u_isalpha c1 = true ->
         u_isalpha c2 = true ->
         fst (rspamd_chartable_process_word_utf w is_url ncap ctx) = 0%Q).
Proof.
  assert (Htwo : forall is_url c1 c2 ncap,
             u_isalpha c1 = true ->
             u_isalpha c2 = true ->
             U.same_script_count (utf_step is_url (U.init ncap) c1) = 0
             /\ U.last_is_latin (utf_step is_url (U.init ncap) c1) = -1
             /\ U.badness (utf_scan is_url [c1; c2] (U.init ncap)) = 0%Q
             /\ U.same_script_count (utf_scan is_url [c1; c2] (U.init ncap))
                = 1
             /\ U.last_is_latin (utf_scan is_url [c1; c2] (U.init ncap)) =
                (if is_latin c2 then 1 else 0)).
  { intros is_url c1 c2 ncap H1 H2.
    destruct (scan_first_letter is_url c1 ncap H1) as (Hs1 & Hb1 & Hc1 & Hl1).
    destruct (step_second_letter is_url _ c2 H2 Hs1 Hc1)
      as (Hs2 & Hb2 & Hc2 & Hl2).
    cbn [utf_scan fold_left]. repeat split; congruence. }
  split; [|split].
  - intros is_url cps uc ncap Ha Hs.
    rewrite utf_scan_app. cbn [utf_scan fold_left].
    fold (utf_scan is_url cps (U.init ncap)).
    destruct (step_opening_letter is_url _ uc Ha Hs) as (_ & _ & Hc & Hl).
    split; [|exact Hl]. rewrite Hc.
    apply scan_counter_zero_outside_run; [reflexivity | exact Hs].
  - exact Htwo.
  - intros w is_url ncap ctx c1 c2 Hw H1 H2.
    rewrite process_word_utf_scan, Hw. cbn [fst].
    apply utf_finish_zero.
    destruct (Htwo is_url c1 c2 ncap H1 H2) as (_ & _ & Hb & _). exact Hb.
Qed.

(** The letter after a digit, and the two-letter word "a", U+0430. *)
Lemma first_letter_leaves_run_untracked_examples :
  U.same_script_count (utf_scan false [0x37; 0x61] (U.init None)) = 0
  /\ U.last_is_latin (utf_scan false [0x61; 0x430] (U.init None)) = 0
  /\ rspamd_can_alias_latin 0x430 = true
  /\ fst (rspamd_chartable_process_word_utf
            {| begin := [x61; xd0; xb0]; flags := 1 |} false None default_ctx)
     = 0%Q.
Proof.
  destruct (@first_letter_leaves_run_untracked ucd_sample) as (T1 & T2 & T3).
  split; [|split; [|split]].
  - apply (T1 false [0x37] 0x61 None); [reflexivity | vm_compute; discriminate].
  - apply (T2 false 0x61 0x430 None); reflexivity.
  - vm_compute. reflexivity.
  - apply (T3 {| begin := [x61; xd0; xb0]; flags := 1 |} false None
              default_ctx 0x61 0x430); reflexivity.
Defined.

(** ** C10: the switch penalty of the byte scorer *)





(** * Further properties of the code *)

(** ** Words without a letter outside the Latin blocks *)

Lemma step_without_foreign_letter {icu : UCharAPI} (is_url : bool)
      (st : U.locals) (uc : Z) :
  foreign_letter uc = false ->
  U.badness (utf_step is_url st uc) = U.badness st.
Proof.
  unfold foreign_letter. intro H. unfold utf_step.
  destruct (u_isalpha uc) eqn:Ha;
    [|destruct (u_isdigit uc); reflexivity].
  cbn in H. apply negb_false_iff in H. cbv zeta.
  unfold utf_alpha_transition. rewrite H. cbn [negb].
  rewrite andb_false_r. cbn [andb].
  destruct (U.state st); try reflexivity.
  destruct (0 <? U.same_script_count st); reflexivity.
Qed.

Lemma scan_without_foreign_letter {icu : UCharAPI} (is_url : bool)
      (cps : list Z) (st : U.locals) :
  forallb (fun uc => negb (foreign_letter uc)) cps = true ->
  U.badness (utf_scan is_url cps st) = U.badness st.
Proof.
  revert st. induction cps as [|uc cps IH]; intros st H; [reflexivity|].
  cbn [forallb] in H. apply andb_true_iff in H. destruct H as [H1 H2].
  apply negb_true_iff in H1. rewrite scan_cons, IH by exact H2.
  apply step_without_foreign_letter. exact H1.
Qed.

Lemma process_word_without_foreign_letter {icu : UCharAPI}
      (w : rspamd_stat_token_t) (is_url : bool) (ncap : option Z)
      (ctx : chartable_ctx) :
  forallb (fun uc => negb (foreign_letter uc)) (codepoints (begin w)) = true ->
  fst (rspamd_chartable_process_word_utf w is_url ncap ctx) = 0%Q.
Proof.
  intro H. rewrite process_word_utf_scan. cbn [fst].
  apply utf_finish_zero. rewrite scan_without_foreign_letter by exact H.
  reflexivity.
Qed.

(** A word in which no code point is a letter outside the Latin blocks
    scores 0 in the Unicode scorer, whatever its digits and other
    characters, in or out of hostname context: both penalties need such a
    letter. *)
Theorem word_without_foreign_letter_scores_zero {icu : UCharAPI}
        (w : rspamd_stat_token_t) (is_url : bool) (ncap : option Z)
        (ctx : chartable_ctx) :
  forallb (fun uc => negb (foreign_letter uc)) (codepoints (begin w)) = true ->
  fst (rspamd_chartable_process_word_utf w is_url ncap ctx) = 0%Q.
Proof.
  apply process_word_without_foreign_letter.
Qed.

(** The word "a1b2-c3". *)
Lemma word_without_foreign_letter_scores_zero_example :
  fst (rspamd_chartable_process_word_utf
         {| begin := list_byte_of_string "a1b2-c3"; flags := 1 |}
         false None default_ctx) = 0%Q.
Proof.
  apply (word_without_foreign_letter_scores_zero
           {| begin := list_byte_of_string "a1b2-c3"; flags := 1 |}
           false None default_ctx).
  vm_compute. reflexivity.
Defined.

Lemma part_loop_sum_zero {icu : UCharAPI} {txt : TextAPI}
      (ctx : chartable_ctx) (ws : list rspamd_stat_token_t) (acc : Q * Z) :
  forallb (fun w => forallb (fun uc => negb (foreign_letter uc))
                            (codepoints (begin w))) ws = true ->
  (fst acc == 0)%Q ->
  (fst (fold_left (part_word_step ctx true) ws acc) == 0)%Q.
Proof.
  revert acc. induction ws as [|w ws IH]; intros acc H Hacc; [exact Hacc|].
  cbn [forallb] in H. apply andb_true_iff in H. destruct H as [H1 H2].
  cbn [fold_left]. apply IH; [exact H2|].
  unfold part_word_step. destruct acc as [s n]. cbn [fst] in Hacc.
  destruct (word_is_scored w); [|exact Hacc].
  pose proof (process_word_without_foreign_letter w false (Some n) ctx H1)
    as Hz.
  destruct (rspamd_chartable_process_word_utf w false (Some n) ctx)
    as [b cell].
  cbn [fst] in *. subst b. rewrite Hacc. reflexivity.
Qed.

Lemma average_capped_of_zero (s : Q) (n : nat) :
  (s == 0)%Q -> (average_capped s n == 0)%Q.
Proof.
  intro H. rewrite average_capped_spec.
  assert (E : (s / inject_Z (Z.of_nat n) == 0)%Q).
  { rewrite H. unfold Qdiv. apply Qmult_0_l. }
  rewrite E. reflexivity.
Qed.

(** A part of valid UTF-8 text none of whose words holds a letter outside
    the Latin blocks makes [rspamd_chartable_process_part] log nothing,
    under any threshold that is not negative. *)
Theorem part_without_foreign_letter_not_detected
        {icu : UCharAPI} {txt : TextAPI}
        (rs : list detection) (p : rspamd_mime_text_part)
        (ws : list rspamd_stat_token_t) (ctx : chartable_ctx) :
  normalized_words p = Some ws ->
  is_part_utf p = true ->
  forallb (fun w => forallb (fun uc => negb (foreign_letter uc))
                            (codepoints (begin w))) ws = true ->
  (0 <= threshold ctx)%Q ->
  fst (rspamd_chartable_process_part rs (Some p) ctx) = rs.
Proof.
  intros Hw Hutf Hall Hthr.
  destruct ws as [|w ws'].
  { unfold rspamd_chartable_process_part. rewrite Hw. reflexivity. }
  rewrite (process_part_results rs p (w :: ws') ctx Hw) by congruence.
  cbv zeta. rewrite Hutf.
  assert (Hs : (fst (part_words_loop ctx true (w :: ws')) == 0)%Q).
  { unfold part_words_loop. apply part_loop_sum_zero; [exact Hall|].
    reflexivity. }
  pose proof (average_capped_of_zero _ (length (w :: ws')) Hs) as Havg.
  assert (E : Qgt_bool
                (average_capped (fst (part_words_loop ctx true (w :: ws')))
                                (length (w :: ws')))
                (threshold ctx) = false).
  { apply Qgt_bool_false. rewrite Havg. exact Hthr. }
  rewrite E. reflexivity.
Qed.

(** The part of "Hello", "2024" and "a-b" under the default
    configuration. *)
Lemma part_without_foreign_letter_not_detected_example :
  fst (rspamd_chartable_process_part [] (Some (part_of true latin_words))
         default_ctx) = [].
Proof.
  apply (part_without_foreign_letter_not_detected
           [] (part_of true latin_words) latin_words default_ctx).
  - reflexivity.
  - reflexivity.
  - vm_compute. reflexivity.
  - vm_compute. discriminate.
Defined.

(** ** Hostname context *)

Ltac ufields :=
  cbn [U.badness U.last_is_latin U.same_script_count U.nsym
       U.state U.prev_state U.ncap negb andb].

Ltac afields :=
  cbn [A.badness A.last_sc A.same_script_count A.seen_alpha A.state
       negb andb].

(** Closes a goal that compares two states field by field, given the
    comparison [Hb] of the badness they started from. *)
Ltac fields_agree Hb :=
  repeat split; try reflexivity;
  first [ exact Hb
        | apply Qplus_le_l; exact Hb
        | eapply Qle_trans; [exact Hb | apply Qle_add_pos; qconst] ].

Lemma utf_step_below {icu : UCharAPI} (st1 st2 : U.locals) (uc : Z) :
  below st1 st2 -> below (utf_step true st1 uc) (utf_step false st2 uc).
Proof.
  destruct st1 as [b1 l1 c1 n1 s1 p1 k1], st2 as [b2 l2 c2 n2 s2 p2 k2].
  unfold below. ufields.
  intros (Hl & Hc & Hn & Hs & Hp & Hk & Hb). subst l2 c2 n2 s2 p2 k2.
  unfold utf_step. cbv zeta.
  destruct (u_isalpha uc);
    [|destruct (u_isdigit uc); ufields; fields_agree Hb].
  unfold utf_alpha_transition. ufields.
  destruct s1; ufields; try (fields_agree Hb).
  - destruct (0 <? c1); ufields; try (fields_agree Hb).
    destruct (negb (is_latin uc) && negb (l1 =? 0)); ufields;
      try (fields_agree Hb).
    destruct (rspamd_can_alias_latin uc); ufields; fields_agree Hb.
  - destruct (negb (is_latin uc)
              && negb (process_state_eqb p1 start_process));
      ufields; fields_agree Hb.
Qed.

Lemma utf_scan_below {icu : UCharAPI} (cps : list Z) (st1 st2 : U.locals) :
  below st1 st2 -> below (utf_scan true cps st1) (utf_scan false cps st2).
Proof.
  revert st1 st2. induction cps as [|uc cps IH]; intros st1 st2 H; [exact H|].
  rewrite !scan_cons. apply IH, utf_step_below, H.
Qed.

Lemma below_refl (st : U.locals) : below st st.
Proof. unfold below. repeat split; try reflexivity. apply Qle_refl. Qed.

Lemma ascii_step_below (st1 st2 : A.locals) (b : byte) :
  A.last_sc st1 = A.last_sc st2 ->
  A.same_script_count st1 = A.same_script_count st2 ->
  A.seen_alpha st1 = A.seen_alpha st2 ->
  A.state st1 = A.state st2 ->
  (A.badness st1 <= A.badness st2)%Q ->
  A.last_sc (ascii_step true st1 b) = A.last_sc (ascii_step false st2 b)
  /\ A.same_script_count (ascii_step true st1 b)
     = A.same_script_count (ascii_step false st2 b)
  /\ A.seen_alpha (ascii_step true st1 b)
     = A.seen_alpha (ascii_step false st2 b)
  /\ A.state (ascii_step true st1 b) = A.state (ascii_step false st2 b)
  /\ (A.badness (ascii_step true st1 b)
      <= A.badness (ascii_step false st2 b))%Q.
Proof.
  destruct st1 as [b1 l1 c1 a1 s1], st2 as [b2 l2 c2 a2 s2].
  afields. intros Hl Hc Ha Hs Hb. subst l2 c2 a2 s2.
  unfold ascii_step. cbv zeta.
  destruct (g_ascii_isalpha (byte_val b) || (0x7f <? byte_val b));
    [|destruct (g_ascii_isdigit (byte_val b)); afields; fields_agree Hb].
  unfold ascii_alpha_transition. cbv zeta. afields.
  destruct s1; afields; try (fields_agree Hb).
  - destruct (0 <? c1); afields; try (fields_agree Hb).
    destruct (negb ((if 0x7f <? byte_val b then ascii else non_ascii) =? l1));
      afields; fields_agree Hb.
  - destruct a1, (g_ascii_isxdigit (byte_val b)); afields; fields_agree Hb.
Qed.

Lemma ascii_loop_below (p : list byte) (st1 st2 : A.locals) :
  A.last_sc st1 = A.last_sc st2 ->
  A.same_script_count st1 = A.same_script_count st2 ->
  A.seen_alpha st1 = A.seen_alpha st2 ->
  A.state st1 = A.state st2 ->
  (A.badness st1 <= A.badness st2)%Q ->
  (A.badness (ascii_loop true p st1) <= A.badness (ascii_loop false p st2))%Q.
Proof.
  revert st1 st2. induction p as [|b p IH]; intros st1 st2 Hl Hc Ha Hs Hb;
    [exact Hb|].
  cbn [ascii_loop fold_left].
  fold (ascii_loop true p (ascii_step true st1 b)).
  fold (ascii_loop false p (ascii_step false st2 b)).
  destruct (ascii_step_below st1 st2 b Hl Hc Ha Hs Hb)
    as (Hl' & Hc' & Ha' & Hs' & Hb').
  apply IH; assumption.
Qed.

Lemma cap_monotone (a b : Q) :
  (a <= b)%Q ->
  ((if Qgt_bool a 4 then 4 else a) <= (if Qgt_bool b 4 then 4 else b))%Q.
Proof.
  intro H.
  destruct (Qgt_bool a 4) eqn:Ea, (Qgt_bool b 4) eqn:Eb.
  - apply Qle_refl.
  - apply Qgt_bool_true in Ea. apply Qgt_bool_false in Eb.
    exfalso. apply (Qlt_not_le _ _ Ea). eapply Qle_trans; eassumption.
  - apply Qgt_bool_false in Ea. exact Ea.
  - exact H.
Qed.

(** Scoring a word in hostname context never gives more than scoring it
    as body text, in either scorer, and advances the [ncap] cell alike:
    hostname context only withholds the digit-to-letter penalty. *)
Theorem hostname_context_never_raises_score {icu : UCharAPI}
        (w : rspamd_stat_token_t) (ncap : option Z) (ctx : chartable_ctx) :
  (fst (rspamd_chartable_process_word_utf w true ncap ctx)
   <= fst (rspamd_chartable_process_word_utf w false ncap ctx))%Q
  /\ snd (rspamd_chartable_process_word_utf w true ncap ctx)
     = snd (rspamd_chartable_process_word_utf w false ncap ctx)
  /\ (rspamd_chartable_process_word_ascii w true ctx
      <= rspamd_chartable_process_word_ascii w false ctx)%Q.
Proof.
  rewrite !process_word_utf_scan. cbn [fst snd].
  pose proof (utf_scan_below (codepoints (begin w)) _ _
                             (below_refl (U.init ncap)))
    as (_ & _ & Hn & _ & _ & Hk & Hb).
  split; [|split].
  - unfold utf_finish. rewrite Hn.
    destruct (max_word_len ctx <? _); [apply Qle_refl|].
    apply cap_monotone. exact Hb.
  - exact Hk.
  - unfold rspamd_chartable_process_word_ascii.
    destruct (max_word_len ctx <? len w); [apply Qle_refl|].
    cbv zeta. apply cap_monotone.
    apply ascii_loop_below; try reflexivity. apply Qle_refl.
Qed.

(** ** The capital-letter counter *)

Lemma utf_step_without_ncap {icu : UCharAPI} (is_url : bool)
      (st : U.locals) (uc : Z) :
  without_ncap (utf_step is_url st uc) =
  utf_step is_url (without_ncap st) uc.
Proof.
  destruct st as [b l c n s p k].
  unfold utf_step, without_ncap. cbv zeta. ufields.
  destruct (u_isalpha uc); [|destruct (u_isdigit uc); reflexivity].
  unfold utf_alpha_transition. ufields.
  destruct (negb (is_latin uc) && u_isupper uc);
    destruct s; ufields; try reflexivity;
    repeat match goal with
           | |- context [if ?c then _ else _] => destruct c
           end; reflexivity.
Qed.

Lemma utf_scan_without_ncap {icu : UCharAPI} (is_url : bool)
      (cps : list Z) (st : U.locals) :
  without_ncap (utf_scan is_url cps st) =
  utf_scan is_url cps (without_ncap st).
Proof.
  revert st. induction cps as [|uc cps IH]; intro st; [reflexivity|].
  rewrite !scan_cons, IH, utf_step_without_ncap. reflexivity.
Qed.

Lemma utf_step_ncap {icu : UCharAPI} (is_url : bool) (st : U.locals)
      (uc : Z) :
  U.ncap (utf_step is_url st uc) =
  if counts_as_capital uc then option_map guint_inc (U.ncap st)
  else U.ncap st.
Proof.
  unfold utf_step, counts_as_capital, foreign_letter.
  destruct (u_isalpha uc); [|destruct (u_isdigit uc); reflexivity].
  cbv zeta. ufields. reflexivity.
Qed.

Lemma utf_scan_ncap {icu : UCharAPI} (is_url : bool) (cps : list Z)
      (st : U.locals) (n : Z) :
  U.ncap st = Some n ->
  0 <= n < guint_max ->
  U.ncap (utf_scan is_url cps st) =
  Some (guint_wrap (n + Z.of_nat (length (filter counts_as_capital cps)))).
Proof.
  revert st n. induction cps as [|uc cps IH]; intros st n Hk Hn.
  - cbn [utf_scan fold_left filter length Z.of_nat].
    rewrite Z.add_0_r, guint_wrap_small by exact Hn. exact Hk.
  - rewrite scan_cons. cbn [filter].
    pose proof (utf_step_ncap is_url st uc) as Hs. rewrite Hk in Hs.
    destruct (counts_as_capital uc).
    + cbn [option_map] in Hs.
      rewrite (IH _ _ Hs) by apply guint_wrap_range.
      f_equal. unfold guint_inc, guint_wrap.
      rewrite Z.add_mod_idemp_l by (unfold guint_max; lia).
      f_equal. cbn [length]. lia.
    + apply (IH _ _ Hs Hn).
Qed.

Lemma process_word_utf_score_without_ncap {icu : UCharAPI}
      (w : rspamd_stat_token_t) (is_url : bool) (ncap : option Z)
      (ctx : chartable_ctx) :
  fst (rspamd_chartable_process_word_utf w is_url ncap ctx) =
  fst (rspamd_chartable_process_word_utf w is_url None ctx).
Proof.
  rewrite !process_word_utf_scan. cbn [fst].
  change (U.init None) with (without_ncap (U.init ncap)).
  rewrite <- utf_scan_without_ncap. reflexivity.
Qed.

Lemma process_word_utf_cell {icu : UCharAPI}
      (w : rspamd_stat_token_t) (is_url : bool) (ctx : chartable_ctx)
      (n : Z) :
  0 <= n < guint_max ->
  snd (rspamd_chartable_process_word_utf w is_url (Some n) ctx)
  = Some (guint_wrap (n + capitals_of w)).
Proof.
  intro Hn. rewrite process_word_utf_scan. cbn [snd].
  apply utf_scan_ncap; [reflexivity | exact Hn].
Qed.

(** The score of a word does not depend on the [ncap] pointer.  Through a
    pointer the scorer advances the cell, modulo 2^32, by the number of
    upper-case letters outside the Latin blocks among the code points it
    decodes, also when the word scores 0 for its length; a null pointer
    stays null. *)
Theorem ncap_counts_foreign_capitals {icu : UCharAPI}
        (w : rspamd_stat_token_t) (is_url : bool) (ctx : chartable_ctx)
        (n : Z) :
  0 <= n < guint_max ->
  fst (rspamd_chartable_process_word_utf w is_url (Some n) ctx)
  = fst (rspamd_chartable_process_word_utf w is_url None ctx)
  /\ snd (rspamd_chartable_process_word_utf w is_url (Some n) ctx)
     = Some (guint_wrap (n + capitals_of w))
  /\ snd (rspamd_chartable_process_word_utf w is_url None ctx) = None.
Proof.
  intro Hn. split; [apply process_word_utf_score_without_ncap|].
  split; [apply process_word_utf_cell; exact Hn|].
  rewrite !process_word_utf_scan. cbn [snd].
  - pose proof (utf_scan_without_ncap is_url (codepoints (begin w))
                                      (U.init None)) as H.
    apply (f_equal U.ncap) in H. cbn [without_ncap U.ncap] in H.
    change (without_ncap (U.init None)) with (U.init None) in H.
    symmetry. exact H.
Qed.

(** Two Cyrillic capitals and "c", counted from 5. *)
Lemma ncap_counts_foreign_capitals_example :
  fst (rspamd_chartable_process_word_utf two_cyrillic_capitals false (Some 5)
         default_ctx)
  = fst (rspamd_chartable_process_word_utf two_cyrillic_capitals false None
           default_ctx)
  /\ snd (rspamd_chartable_process_word_utf two_cyrillic_capitals false
            (Some 5) default_ctx)
     = Some (guint_wrap (5 + capitals_of two_cyrillic_capitals))
  /\ snd (rspamd_chartable_process_word_utf two_cyrillic_capitals false None
            default_ctx) = None.
Proof.
  apply (ncap_counts_foreign_capitals two_cyrillic_capitals false default_ctx
                                      5).
  vm_compute. split; [discriminate | reflexivity].
Defined.

Lemma part_loop_ncap {icu : UCharAPI} {txt : TextAPI} (ctx : chartable_ctx)
      (ws : list rspamd_stat_token_t) (s : Q) (n : Z) :
  0 <= n < guint_max ->
  snd (fold_left (part_word_step ctx true) ws (s, n)) =
  guint_wrap (n + capitals_of_words ws).
Proof.
  revert s n. induction ws as [|w ws IH]; intros s n Hn.
  - unfold capitals_of_words. cbn. rewrite Z.add_0_r.
    symmetry. apply guint_wrap_small. exact Hn.
  - cbn [fold_left]. unfold part_word_step at 2.
    unfold capitals_of_words. cbn [filter].
    destruct (word_is_scored w).
    + pose proof (process_word_utf_cell w false ctx n Hn) as Hcell.
      destruct (rspamd_chartable_process_word_utf w false (Some n) ctx)
        as [b cell].
      cbn [snd] in Hcell. subst cell.
      rewrite IH by apply guint_wrap_range.
      cbn [map fold_right]. unfold guint_wrap.
      rewrite Z.add_mod_idemp_l by (unfold guint_max; lia).
      f_equal. unfold capitals_of_words. lia.
    + apply IH. exact Hn.
Qed.

Lemma part_loop_ncap_bytes {icu : UCharAPI} {txt : TextAPI}
      (ctx : chartable_ctx) (ws : list rspamd_stat_token_t) (s : Q) (n : Z) :
  snd (fold_left (part_word_step ctx false) ws (s, n)) = n.
Proof.
  revert s. induction ws as [|w ws IH]; intro s; [reflexivity|].
  cbn [fold_left]. unfold part_word_step at 2.
  destruct (word_is_scored w); apply IH.
Qed.

(** A part with words leaves [rspamd_chartable_process_part] with its
    words and its UTF flag as they were and with [capital_letters]
    advanced, modulo 2^32, by the upper-case letters outside the Latin
    blocks of its scored words when the part is valid UTF-8, and by
    nothing when it is not: the byte scorer counts no capitals. *)
Theorem part_counts_capitals {icu : UCharAPI} {txt : TextAPI}
        (rs : list detection) (p : rspamd_mime_text_part)
        (ws : list rspamd_stat_token_t) (ctx : chartable_ctx) :
  normalized_words p = Some ws ->
  ws <> [] ->
  snd (rspamd_chartable_process_part rs (Some p) ctx) =
  Some {| normalized_words := Some ws;
          is_part_utf := is_part_utf p;
          capital_letters :=
            guint_wrap (capital_letters p
                        + (if is_part_utf p then capitals_of_words ws
                           else 0)) |}.
Proof.
  intros Hw Hne. unfold rspamd_chartable_process_part. rewrite Hw.
  destruct ws as [|w ws']; [congruence|].
  assert (Hn : snd (part_words_loop ctx (is_part_utf p) (w :: ws')) =
               if is_part_utf p
               then guint_wrap (capitals_of_words (w :: ws')) else 0).
  { unfold part_words_loop. destruct (is_part_utf p).
    - rewrite part_loop_ncap by (unfold guint_max; lia). reflexivity.
    - apply part_loop_ncap_bytes. }
  destruct (part_words_loop ctx (is_part_utf p) (w :: ws')) as [s n].
  cbn [snd] in Hn. subst n. cbv zeta.
  assert (E : guint_wrap
                (capital_letters p
                 + (if is_part_utf p
                    then guint_wrap (capitals_of_words (w :: ws')) else 0))
              = guint_wrap
                  (capital_letters p
                   + (if is_part_utf p then capitals_of_words (w :: ws')
                      else 0))).
  { destruct (is_part_utf p); [|reflexivity].
    unfold guint_wrap. apply Z.add_mod_idemp_r. unfold guint_max. lia. }
  rewrite E.
  destruct (Qgt_bool _ (threshold ctx)); reflexivity.
Qed.

(** A UTF-8 part of one word with two Cyrillic capitals, counted from
    40, and the same bytes in a part that is not UTF-8. *)
Lemma part_counts_capitals_example :
  option_map capital_letters
    (snd (rspamd_chartable_process_part
            []
            (Some {| normalized_words := Some [two_cyrillic_capitals];
                     is_part_utf := true; capital_letters := 40 |})
            default_ctx)) = Some 42
  /\ option_map capital_letters
       (snd (rspamd_chartable_process_part
               []
               (Some {| normalized_words := Some [two_cyrillic_capitals];
                        is_part_utf := false; capital_letters := 40 |})
               default_ctx)) = Some 40.
Proof.
  split.
  - rewrite (part_counts_capitals
               [] {| normalized_words := Some [two_cyrillic_capitals];
                     is_part_utf := true; capital_letters := 40 |}
               [two_cyrillic_capitals] default_ctx);
      [vm_compute; reflexivity | reflexivity | discriminate].
  - rewrite (part_counts_capitals
               [] {| normalized_words := Some [two_cyrillic_capitals];
                     is_part_utf := false; capital_letters := 40 |}
               [two_cyrillic_capitals] default_ctx);
      [vm_compute; reflexivity | reflexivity | discriminate].
Defined.

(** ** The subject *)

Lemma subject_loop_as_part_loop {icu : UCharAPI} {txt : TextAPI}
      (ctx : chartable_ctx) (ws : list rspamd_stat_token_t) (s : Q) (n : Z) :
  forallb word_is_scored ws = true ->
  fst (fold_left (part_word_step ctx true) ws (s, n)) =
  fold_left
    (fun cur_score w =>
       (cur_score
        + fst (rspamd_chartable_process_word_utf w false None ctx))%Q)
    ws s.
Proof.
  revert s n. induction ws as [|w ws IH]; intros s n H; [reflexivity|].
  cbn [forallb] in H. apply andb_true_iff in H. destruct H as [H1 H2].
  cbn [fold_left]. unfold part_word_step at 2. rewrite H1.
  pose proof (process_word_utf_score_without_ncap w false (Some n) ctx) as E.
  destruct (rspamd_chartable_process_word_utf w false (Some n) ctx)
    as [b cell].
  cbn [fst] in E. subst b. apply IH. exact H2.
Qed.

Lemma logged_since_same (rs : list detection) : logged_since rs rs = [].
Proof.
  rewrite <- (app_nil_r rs) at 2. apply logged_since_app.
Qed.

(** When every word the tokenizer returns for the subject is non-empty and
    flagged as text, the subject path logs what
    [rspamd_chartable_process_part] logs for a UTF-8 part of these words,
    same symbol and same score, with the option "subject" added. *)
Theorem subject_scored_as_text_part {icu : UCharAPI} {txt : TextAPI}
        (rs : list detection) (s : list byte)
        (ws : list rspamd_stat_token_t) (c : Z) (ctx : chartable_ctx) :
  rspamd_tokenize_text s = Some ws ->
  forallb word_is_scored ws = true ->
  process_subject rs (Some s) ctx =
  rs ++ map as_subject
            (logged_since rs
               (fst (rspamd_chartable_process_part
                       rs
                       (Some {| normalized_words := Some ws;
                                is_part_utf := true;
                                capital_letters := c |})
                       ctx))).
Proof.
  intros Htok Hall. unfold process_subject. rewrite Htok.
  destruct ws as [|w ws'].
  { cbn [rspamd_chartable_process_part normalized_words fst].
    rewrite logged_since_same. cbn [map]. rewrite app_nil_r. reflexivity. }
  rewrite (process_part_results
             rs {| normalized_words := Some (w :: ws'); is_part_utf := true;
                   capital_letters := c |} (w :: ws') ctx eq_refl)
    by congruence.
  cbv beta iota zeta. cbn [is_part_utf].
  assert (E : subject_words_loop ctx (w :: ws') =
              fst (part_words_loop ctx true (w :: ws'))).
  { unfold subject_words_loop, part_words_loop. symmetry.
    apply subject_loop_as_part_loop. exact Hall. }
  rewrite E.
  destruct (Qgt_bool _ (threshold ctx)).
  - unfold rspamd_task_insert_result. rewrite logged_since_app. reflexivity.
  - rewrite logged_since_same. cbn [map]. rewrite app_nil_r. reflexivity.
Qed.

(** The subject of U+0430 "a" U+0430 and "cc": one detection of score 1/2
    with the option "subject". *)
Lemma subject_scored_as_text_part_example :
  process_subject [] (Some lookalike_subject) default_ctx =
  [] ++ map as_subject
          (logged_since []
             (fst (rspamd_chartable_process_part
                     []
                     (Some {| normalized_words :=
                                Some [ {| begin := [xd0; xb0; x61; xd0; xb0];
                                          flags := 1 |};
                                       {| begin := [x63; x63];
                                          flags := 1 |} ];
                              is_part_utf := true;
                              capital_letters := 0 |})
                     default_ctx)))
  /\ map d_option (process_subject [] (Some lookalike_subject) default_ctx)
     = [Some "subject"%string].
Proof.
  split.
  - apply (subject_scored_as_text_part
             [] lookalike_subject
             [ {| begin := [xd0; xb0; x61; xd0; xb0]; flags := 1 |};
               {| begin := [x63; x63]; flags := 1 |} ] 0 default_ctx).
    + vm_compute. reflexivity.
    + vm_compute. reflexivity.
  - vm_compute. reflexivity.
Defined.

(** ** What the callbacks log *)

Lemma process_part_shape {icu : UCharAPI} {txt : TextAPI}
      (rs : list detection) (part : option rspamd_mime_text_part)
      (ctx : chartable_ctx) :
  exists news,
    fst (rspamd_chartable_process_part rs part ctx) = rs ++ news
    /\ (length news <= 1)%nat
    /\ Forall (part_detection ctx) news.
Proof.
  assert (Hnil : exists news, rs = rs ++ news /\ (length news <= 1)%nat
                              /\ Forall (part_detection ctx) news).
  { exists []. rewrite app_nil_r. cbn. auto. }
  destruct part as [p|]; [|exact Hnil].
  destruct (normalized_words p) as [ws|] eqn:Hw;
    [|unfold rspamd_chartable_process_part; rewrite Hw; exact Hnil].
  destruct ws as [|w ws'];
    [unfold rspamd_chartable_process_part; rewrite Hw; exact Hnil|].
  rewrite (process_part_results rs p (w :: ws') ctx Hw) by congruence.
  cbv zeta.
  destruct (Qgt_bool _ (threshold ctx)) eqn:E; [|exact Hnil].
  unfold rspamd_task_insert_result. eexists. split; [reflexivity|].
  split; [cbn; lia|]. constructor; [|constructor].
  unfold part_detection. cbn [d_symbol d_option d_score].
  repeat split; [apply Qgt_bool_true; exact E | apply average_capped_le_2].
Qed.

Lemma process_parts_shape {icu : UCharAPI} {txt : TextAPI}
      (parts : list (option rspamd_mime_text_part)) (rs : list detection)
      (ctx : chartable_ctx) :
  exists news,
    fst (process_parts rs parts ctx) = rs ++ news
    /\ (length news <= length parts)%nat
    /\ Forall (part_detection ctx) news
    /\ length (snd (process_parts rs parts ctx)) = length parts.
Proof.
  revert rs. induction parts as [|part parts IH]; intro rs.
  - exists []. cbn. rewrite app_nil_r. auto.
  - cbn [process_parts].
    destruct (process_part_shape rs part ctx) as (n1 & E1 & L1 & F1).
    destruct (rspamd_chartable_process_part rs part ctx) as [rs1 part'].
    destruct (IH rs1) as (n2 & E2 & L2 & F2 & Hlen).
    destruct (process_parts rs1 parts ctx) as [rs2 parts''].
    cbn [fst snd] in *. exists (n1 ++ n2). subst rs1 rs2.
    rewrite app_assoc. split; [reflexivity|].
    split; [rewrite length_app; cbn [length]; lia|].
    split; [apply Forall_app; auto|].
    cbn [length]. lia.
Qed.

Lemma process_subject_shape {icu : UCharAPI} {txt : TextAPI}
      (rs : list detection) (subj : option (list byte))
      (ctx : chartable_ctx) :
  exists news,
    process_subject rs subj ctx = rs ++ news
    /\ (length news <= 1)%nat
    /\ Forall (subject_detection ctx) news
    /\ (subj = None -> news = []).
Proof.
  assert (Hnil : exists news, rs = rs ++ news /\ (length news <= 1)%nat
                              /\ Forall (subject_detection ctx) news
                              /\ (subj = None -> news = [])).
  { exists []. rewrite app_nil_r. cbn. auto. }
  unfold process_subject.
  destruct subj as [s|]; [|exact Hnil].
  destruct (rspamd_tokenize_text s) as [[|w ws]|]; try exact Hnil.
  destruct (Qgt_bool _ (threshold ctx)) eqn:E; [|exact Hnil].
  unfold rspamd_task_insert_result. eexists. split; [reflexivity|].
  split; [cbn; lia|]. split; [|discriminate].
  constructor; [|constructor].
  unfold subject_detection. cbn [d_symbol d_option d_score].
  repeat split; [apply Qgt_bool_true; exact E | apply average_capped_le_2].
Qed.

(** [chartable_symbol_callback] only appends to the result log: first the
    detections of the text parts, no more of them than there are parts,
    then at most one for the subject, and none for a message without
    subject.
    Every one of them is logged under [symbol], with a score above the
    threshold and of 2 at most; the part detections carry no option, the
    subject detection carries "subject".  The callback leaves the subject,
    the URLs and the emails alone and keeps the number of parts. *)
Theorem symbol_callback_log_shape {icu : UCharAPI} {txt : TextAPI}
        (task : rspamd_task) (ctx : chartable_ctx) :
  exists from_parts from_subject,
    results (chartable_symbol_callback task ctx) =
    results task ++ from_parts ++ from_subject
    /\ (length from_parts <= length (text_parts task))%nat
    /\ (length from_subject <= 1)%nat
    /\ Forall (part_detection ctx) from_parts
    /\ Forall (subject_detection ctx) from_subject
    /\ (subject task = None -> from_subject = [])
    /\ subject (chartable_symbol_callback task ctx) = subject task
    /\ urls (chartable_symbol_callback task ctx) = urls task
    /\ emails (chartable_symbol_callback task ctx) = emails task
    /\ length (text_parts (chartable_symbol_callback task ctx)) =
       length (text_parts task).
Proof.
  unfold chartable_symbol_callback.
  destruct (process_parts_shape (text_parts task) (results task) ctx)
    as (n1 & E1 & L1 & F1 & Hlen).
  destruct (process_parts (results task) (text_parts task) ctx)
    as [rs1 parts'].
  cbn [fst snd results subject urls emails text_parts] in *.
  destruct (process_subject_shape rs1 (subject task) ctx)
    as (n2 & E2 & L2 & F2 & Hnone).
  exists n1, n2. rewrite E2, E1, <- app_assoc. auto 12.
Qed.

(** ** The hostname sum *)

Lemma host_score_bounds {icu : UCharAPI} {txt : TextAPI}
      (ctx : chartable_ctx) (u : rspamd_url) :
  (0 <= host_score ctx u)%Q /\ (host_score ctx u <= 4)%Q.
Proof.
  unfold host_score. cbv zeta. cbn [begin].
  destruct (g_utf8_validate (host u)).
  - apply process_word_utf_bounds.
  - apply process_word_ascii_bounds.
Qed.

Lemma url_loop_bounds {icu : UCharAPI} {txt : TextAPI}
      (ctx : chartable_ctx) (it : list rspamd_url) (cur : Q) :
  (0 <= cur)%Q -> (cur <= 6)%Q ->
  (0 <= url_loop ctx it cur)%Q /\ (url_loop ctx it cur <= 6)%Q.
Proof.
  revert cur. induction it as [|u it IH]; intros cur H0 H6; [auto|].
  cbn [url_loop].
  destruct (Qgt_bool cur 2) eqn:E; [split; qconst|].
  apply Qgt_bool_false in E.
  destruct (0 <? hostlen u); [|apply IH; assumption].
  destruct (host_score_bounds ctx u) as [Hh0 Hh4].
  apply IH.
  - rewrite <- (Qplus_0_r 0). apply Qplus_le_compat; assumption.
  - setoid_replace (6 : Q) with (2 + 4)%Q by reflexivity.
    apply Qplus_le_compat; assumption.
Qed.

(** [chartable_url_symbol_callback] appends at most one detection to the
    result log and touches nothing else of the task.  The detection is
    logged under [symbol], without option, with a score above the
    threshold and of 6 at most: the running sum is brought back to 2 only
    on entering a turn of a loop, and one host adds 4 at most.  Two hosts
    that score 1 and a third of invalid UTF-8 that scores 4 reach 6. *)
Theorem url_callback_log_shape :
  (forall (icu : UCharAPI) (txt : TextAPI) (task : rspamd_task)
          (ctx : chartable_ctx),
      (results (chartable_url_symbol_callback task ctx) = results task
       \/ exists score,
           results (chartable_url_symbol_callback task ctx) =
           results task
           ++ [{| d_symbol := symbol ctx; d_score := score;
                  d_option := None |}]
           /\ (threshold ctx < score)%Q /\ (score <= 6)%Q)
      /\ text_parts (chartable_url_symbol_callback task ctx)
         = text_parts task
      /\ subject (chartable_url_symbol_callback task ctx) = subject task
      /\ urls (chartable_url_symbol_callback task ctx) = urls task
      /\ emails (chartable_url_symbol_callback task ctx) = emails task)
  /\ map d_score
         (results
            (chartable_url_symbol_callback
               (task_of_urls [lookalike_host "com"; lookalike_host "net";
                              high_byte_host])
               default_ctx)) = [6%Q].
Proof.
  split; [|vm_compute; reflexivity].
  intros icu' txt' task ctx.
  split; [|cbn; auto].
  unfold chartable_url_symbol_callback. cbv zeta. cbn [results].
  destruct (Qgt_bool _ (threshold ctx)) eqn:E; [right | left; reflexivity].
  eexists. split; [reflexivity|].
  split; [apply Qgt_bool_true; exact E|].
  assert (H1 : (0 <= url_loop ctx (urls task) 0)%Q
               /\ (url_loop ctx (urls task) 0 <= 6)%Q).
  { apply url_loop_bounds; qconst. }
  destruct H1 as [H0 H6].
  apply url_loop_bounds; assumption.
Qed.

(** ** Words made of letters only *)

Lemma step_foreign_switch {icu : UCharAPI} (is_url : bool) (st : U.locals)
      (uc : Z) :
  foreign_letter uc = true ->
  U.state st = got_alpha ->
  0 < U.same_script_count st ->
  U.last_is_latin st <> 0 ->
  let st' := utf_step is_url st uc in
  U.state st' = got_alpha
  /\ U.same_script_count st' = 1
  /\ U.last_is_latin st' = 0
  /\ (U.badness st' <= U.badness st + 1)%Q.
Proof.
  intros Hf Hs Hc Hl. apply foreign_letter_spec in Hf.
  destruct Hf as [Ha Hf].
  unfold utf_step. rewrite Ha. cbv zeta.
  unfold utf_alpha_transition. rewrite Hs, Hf.
  apply Z.ltb_lt in Hc as Hc'. rewrite Hc'.
  apply Z.eqb_neq in Hl. rewrite Hl. ufields.
  repeat split.
  destruct (rspamd_can_alias_latin uc).
  - apply Qplus_le_r. apply Qinv_of_Z_le_1. exact Hc.
  - apply Qle_add_pos. qconst.
Qed.

Lemma tracked_latin_run_le_1 {icu : UCharAPI} (is_url : bool)
      (cps : list Z) (st : U.locals) :
  forallb u_isalpha cps = true ->
  U.state st = got_alpha ->
  U.last_is_latin st = 1 ->
  0 < U.same_script_count st ->
  U.same_script_count st + Z.of_nat (length cps) < guint_max ->
  (U.badness (utf_scan is_url cps st) <= U.badness st + 1)%Q.
Proof.
  revert st. induction cps as [|uc cps IH]; intros st Hall Hs Hl Hc Hm.
  - apply Qle_add_pos. qconst.
  - cbn [forallb] in Hall. apply andb_true_iff in Hall.
    destruct Hall as [Ha Hall]. cbn [length] in Hm. rewrite scan_cons.
    destruct (is_latin uc) eqn:Elat.
    + assert (Hlat : latin_letter uc = true)
        by (apply latin_letter_spec; auto).
      destruct (step_latin_letter_tracked is_url st uc Hlat Hs Hc)
        as (Hs1 & Hb1 & Hc1 & Hl1); [lia|].
      rewrite <- Hb1. apply IH; auto; [congruence | lia | lia].
    + assert (Hfor : foreign_letter uc = true)
        by (apply foreign_letter_spec; auto).
      destruct (step_foreign_switch is_url st uc Hfor Hs Hc)
        as (Hs1 & Hc1 & Hl1 & Hb1); [lia|].
      rewrite foreign_bucket_run; auto; lia.
Qed.

Lemma letters_scan_le_1 {icu : UCharAPI} (is_url : bool) (cps : list Z)
      (ncap : option Z) :
  forallb u_isalpha cps = true ->
  Z.of_nat (length cps) < guint_max ->
  (U.badness (utf_scan is_url cps (U.init ncap)) <= 1)%Q.
Proof.
  intros Hall Hm.
  destruct cps as [|x cps1]; [cbn; qconst|].
  cbn [forallb] in Hall. apply andb_true_iff in Hall.
  destruct Hall as [Hx Hall]. rewrite scan_cons.
  destruct (scan_first_letter is_url x ncap Hx) as (Hs1 & Hb1 & Hc1 & _).
  destruct cps1 as [|y cps2]; [cbn [utf_scan fold_left]; rewrite Hb1; qconst|].
  cbn [forallb] in Hall. apply andb_true_iff in Hall.
  destruct Hall as [Hy Hall]. rewrite scan_cons. cbn [length] in Hm.
  destruct (step_second_letter is_url _ y Hy Hs1 Hc1)
    as (Hs2 & Hb2 & Hc2 & Hl2).
  destruct (is_latin y).
  - eapply Qle_trans.
    + apply tracked_latin_run_le_1; auto; lia.
    + rewrite Hb2, Hb1. qconst.
  - rewrite foreign_bucket_run; auto; [|lia|lia].
    rewrite Hb2, Hb1. qconst.
Qed.

(** A word of letters only, shorter than 2^32 bytes, scores at most 1 in
    the Unicode scorer, however often it changes script: once a run has
    left the Latin bucket it stays out of it until a digit or another
    character ends the run, so one switch at most is penalised. *)
Theorem letters_only_word_scores_at_most_one {icu : UCharAPI}
        (w : rspamd_stat_token_t) (is_url : bool) (ncap : option Z)
        (ctx : chartable_ctx) :
  forallb u_isalpha (codepoints (begin w)) = true ->
  len w < guint_max ->
  (fst (rspamd_chartable_process_word_utf w is_url ncap ctx) <= 1)%Q.
Proof.
  intros Hall Hlen. rewrite process_word_utf_scan. cbn [fst].
  pose proof (u8_codepoints_length (length (begin w)) (begin w)) as Hle.
  fold (codepoints (begin w)) in Hle. unfold len in Hlen.
  pose proof (letters_scan_le_1 is_url (codepoints (begin w)) ncap Hall
                                ltac:(lia)) as Hb.
  unfold utf_finish.
  destruct (max_word_len ctx <? _); [qconst|].
  destruct (Qgt_bool _ 4) eqn:E; [|exact Hb].
  apply Qgt_bool_true in E. exfalso.
  apply (Qlt_not_le _ _ E). eapply Qle_trans; [exact Hb | qconst].
Qed.

(** Nine letters that change script at every character, the Cyrillic one
    first. *)
Lemma letters_only_word_scores_at_most_one_example :
  (fst (rspamd_chartable_process_word_utf
          {| begin := [xd0; xb0; x61; xd0; xb0; x61; xd0; xb0; x61; xd0; xb0;
                       x61; xd0; xb0];
             flags := 1 |} false None default_ctx) <= 1)%Q.
Proof.
  apply (letters_only_word_scores_at_most_one
           {| begin := [xd0; xb0; x61; xd0; xb0; x61; xd0; xb0; x61; xd0; xb0;
                        x61; xd0; xb0];
              flags := 1 |} false None default_ctx).
  - vm_compute. reflexivity.
  - vm_compute. reflexivity.
Defined.

(** ** Words of one or two characters *)

(** A word of at most two code points scores 0 in the Unicode scorer, and
    a word of at most two bytes scores 0 in the byte scorer, whatever the
    characters, the context and [max_word_len]: the first character is
    never penalised, and neither is the second, since the run counter is
    still 0 and a digit that opens the word is not remembered as following
    anything. *)
Theorem short_word_scores_zero {icu : UCharAPI}
        (w : rspamd_stat_token_t) (is_url : bool) (ncap : option Z)
        (ctx : chartable_ctx) :
  ((length (codepoints (begin w)) <= 2)%nat ->
   fst (rspamd_chartable_process_word_utf w is_url ncap ctx) = 0%Q)
  /\ ((length (begin w) <= 2)%nat ->
      rspamd_chartable_process_word_ascii w is_url ctx = 0%Q).
Proof.
  split.
  - intro H. rewrite process_word_utf_scan. cbn [fst].
    apply utf_finish_zero.
    destruct (codepoints (begin w)) as [|a [|b [|c cps]]];
      cbn [length] in H; try lia.
    + reflexivity.
    + cbn [utf_scan fold_left]. unfold utf_step, utf_alpha_transition.
      destruct (u_isalpha a), (u_isdigit a); reflexivity.
    + cbn [utf_scan fold_left]. unfold utf_step, utf_alpha_transition.
      destruct (rspamd_can_alias_latin b), (u_isalpha a), (u_isdigit a),
        (u_isalpha b), (u_isdigit b);
        cbn [U.init U.badness U.last_is_latin U.same_script_count U.nsym
             U.state U.prev_state U.ncap process_state_eqb negb andb
             Z.ltb Z.compare];
        rewrite ?andb_false_r; reflexivity.
  - intro H. unfold rspamd_chartable_process_word_ascii.
    destruct (max_word_len ctx <? len w); [reflexivity|].
    destruct (begin w) as [|a [|b [|c p]]]; cbn [length] in H; try lia.
    + reflexivity.
    + cbn [ascii_loop fold_left]. unfold ascii_step, ascii_alpha_transition.
      cbv zeta.
      destruct (g_ascii_isalpha (byte_val a) || (0x7f <? byte_val a)),
        (g_ascii_isdigit (byte_val a)); reflexivity.
    + cbn [ascii_loop fold_left]. unfold ascii_step, ascii_alpha_transition.
      cbv zeta.
      destruct (g_ascii_isalpha (byte_val a) || (0x7f <? byte_val a)),
        (g_ascii_isdigit (byte_val a)),
        (g_ascii_isalpha (byte_val b) || (0x7f <? byte_val b)),
        (g_ascii_isdigit (byte_val b));
        cbn [A.init A.badness A.last_sc A.same_script_count A.seen_alpha
             A.state negb andb Z.ltb Z.compare];
        reflexivity.
Qed.

(** "9" then U+0430, and the two bytes "9", 0x80. *)
Lemma short_word_scores_zero_example :
  fst (rspamd_chartable_process_word_utf
         {| begin := [x39; xd0; xb0]; flags := 1 |} false None default_ctx)
  = 0%Q
  /\ rspamd_chartable_process_word_ascii
       {| begin := [x39; x80]; flags := 1 |} false default_ctx = 0%Q.
Proof.
  destruct (short_word_scores_zero
              {| begin := [x39; xd0; xb0]; flags := 1 |} false None
              default_ctx) as [Hu _].
  destruct (short_word_scores_zero
              {| begin := [x39; x80]; flags := 1 |} false None
              default_ctx) as [_ Ha].
  split.
  - apply Hu. vm_compute. lia.
  - apply Ha. simpl. lia.
Defined.

(** ** Words of one script in the byte scorer *)

Lemma ascii_step_one_script (sc : Z) (is_url : bool) (st : A.locals)
      (b : byte) :
  negb (alpha_byte b) || (byte_script b =? sc) = true ->
  is_url = true \/ g_ascii_isdigit (byte_val b) = false ->
  one_script sc is_url st ->
  one_script sc is_url (ascii_step is_url st b).
Proof.
  destruct st as [q l c a s]. unfold one_script. afields.
  intros Hsc Hd (Hq & Hl & Hs). subst q.
  unfold alpha_byte, byte_script in Hsc.
  unfold ascii_step. cbv zeta.
  destruct (g_ascii_isalpha (byte_val b) || (0x7f <? byte_val b)) eqn:Ea.
  - cbn [negb orb] in Hsc. apply Z.eqb_eq in Hsc.
    unfold ascii_alpha_transition. cbv zeta. afields. rewrite Hsc.
    destruct s; afields.
    + repeat split; auto; right; congruence.
    + destruct (0 <? c) eqn:Ec.
      * apply Z.ltb_lt in Ec. rewrite (Hl Ec), Z.eqb_refl. afields.
        repeat split; auto; right; congruence.
      * afields. repeat split; auto; right; congruence.
    + destruct Hs as [Hs | Hs]; [|congruence]. subst is_url. afields.
      rewrite andb_false_r. afields.
      repeat split; auto; right; congruence.
    + repeat split; auto; right; congruence.
  - destruct (g_ascii_isdigit (byte_val b)) eqn:Edig; afields.
    + destruct Hd as [Hd | Hd]; [|congruence].
      repeat split; auto; lia.
    + repeat split; auto; try lia; right; congruence.
Qed.

Lemma ascii_loop_one_script (sc : Z) (is_url : bool) (p : list byte)
      (st : A.locals) :
  forallb (fun b => negb (alpha_byte b) || (byte_script b =? sc)) p = true ->
  is_url = true
  \/ forallb (fun b => negb (g_ascii_isdigit (byte_val b))) p = true ->
  one_script sc is_url st ->
  one_script sc is_url (ascii_loop is_url p st).
Proof.
  revert st. induction p as [|b p IH]; intros st Hsc Hd Hst; [exact Hst|].
  cbn [forallb] in Hsc. apply andb_true_iff in Hsc. destruct Hsc as [H1 H2].
  cbn [ascii_loop fold_left]. fold (ascii_loop is_url p (ascii_step is_url st b)).
  apply IH; [exact H2 | |].
  - destruct Hd as [Hd | Hd]; [left; exact Hd|].
    cbn [forallb] in Hd. apply andb_true_iff in Hd. right. tauto.
  - apply ascii_step_one_script; [exact H1 | | exact Hst].
    destruct Hd as [Hd | Hd]; [left; exact Hd|].
    cbn [forallb] in Hd. apply andb_true_iff in Hd. destruct Hd as [Hd _].
    right. apply negb_true_iff. exact Hd.
Qed.

(** In the byte scorer a word whose alphabetic bytes all have one script
    (all below 0x80, or all from 0x80 up) scores 0 in hostname context,
    and out of it when the word holds no digit: the switch penalty needs
    two scripts and the other penalty needs a digit. *)
Theorem one_script_bytes_score_zero
        (w : rspamd_stat_token_t) (is_url : bool) (ctx : chartable_ctx)
        (sc : Z) :
  forallb (fun b => negb (alpha_byte b) || (byte_script b =? sc)) (begin w)
  = true ->
  is_url = true
  \/ forallb (fun b => negb (g_ascii_isdigit (byte_val b))) (begin w) = true ->
  rspamd_chartable_process_word_ascii w is_url ctx = 0%Q.
Proof.
  intros Hsc Hd. unfold rspamd_chartable_process_word_ascii.
  destruct (max_word_len ctx <? len w); [reflexivity|]. cbv zeta.
  assert (H0 : one_script sc is_url A.init).
  { unfold one_script. cbn. repeat split; [lia|]. right. congruence. }
  destruct (ascii_loop_one_script sc is_url (begin w) A.init Hsc Hd H0)
    as (Hb & _).
  rewrite Hb. reflexivity.
Qed.

(** The host "a1b2.c3d" in hostname context, and the high bytes 0xE9 0xE8
    with a dash out of it. *)
Lemma one_script_bytes_score_zero_example :
  rspamd_chartable_process_word_ascii
    {| begin := list_byte_of_string "a1b2.c3d"; flags := 0 |} true default_ctx
  = 0%Q
  /\ rspamd_chartable_process_word_ascii
       {| begin := [xe9; xe8; x2d; xe9]; flags := 1 |} false default_ctx
     = 0%Q.
Proof.
  split.
  - apply (one_script_bytes_score_zero
             {| begin := list_byte_of_string "a1b2.c3d"; flags := 0 |}
             true default_ctx non_ascii).
    + vm_compute. reflexivity.
    + left. reflexivity.
  - apply (one_script_bytes_score_zero
             {| begin := [xe9; xe8; x2d; xe9]; flags := 1 |}
             false default_ctx ascii).
    + vm_compute. reflexivity.
    + right. vm_compute. reflexivity.
Defined.

(** ** The configuration code *)




(** ** The lazily built table *)

Lemma existsb_insert_key (ch : Z) (ht : list Z) (k : Z) :
  existsb (Z.eqb ch) (g_hash_table_insert_key ht k) =
  (ch =? k) || existsb (Z.eqb ch) ht.
Proof.
  unfold g_hash_table_insert_key.
  destruct (existsb (Z.eqb k) ht) eqn:E; [|reflexivity].
  destruct (ch =? k) eqn:Ek; [|reflexivity].
  apply Z.eqb_eq in Ek. subst k. rewrite E. reflexivity.
Qed.

Lemma existsb_insert_all (ch : Z) (keys ht : list Z) :
  existsb (Z.eqb ch) (fold_left g_hash_table_insert_key keys ht) =
  existsb (Z.eqb ch) keys || existsb (Z.eqb ch) ht.
Proof.
  revert ht. induction keys as [|k keys IH]; intro ht; [reflexivity|].
  cbn [fold_left existsb]. rewrite IH, existsb_insert_key.
  destruct (ch =? k), (existsb (Z.eqb ch) keys), (existsb (Z.eqb ch) ht);
    reflexivity.
Qed.

Lemma insert_key_NoDup (ht : list Z) (k : Z) :
  NoDup ht -> NoDup (g_hash_table_insert_key ht k).
Proof.
  intro H. unfold g_hash_table_insert_key.
  destruct (existsb (Z.eqb k) ht) eqn:E; [exact H|].
  constructor; [|exact H]. intro Hin.
  assert (existsb (Z.eqb k) ht = true).
  { apply existsb_exists. exists k. split; [exact Hin | apply Z.eqb_refl]. }
  congruence.
Qed.

Lemma insert_all_NoDup (keys ht : list Z) :
  NoDup ht -> NoDup (fold_left g_hash_table_insert_key keys ht).
Proof.
  revert ht. induction keys as [|k keys IH]; intros ht H; [exact H|].
  cbn [fold_left]. apply IH, insert_key_NoDup, H.
Qed.

(** [rspamd_can_alias_latin] answers by membership in the literal table
    whether or not the hash table was built before the call; the first
    call builds it, a call on the built table leaves it as it is, and the
    built table holds every entry of the literal table once. *)
Theorem confusable_table_built_once (ch : Z) :
  rspamd_can_alias_latin_ht None ch =
  (rspamd_can_alias_latin ch, Some latin_confusable_built)
  /\ rspamd_can_alias_latin_ht (Some latin_confusable_built) ch =
     (rspamd_can_alias_latin ch, Some latin_confusable_built)
  /\ NoDup latin_confusable_built
  /\ (forall k, In k latin_confusable_built <-> In k latin_confusable).
Proof.
  assert (E : existsb (Z.eqb ch) latin_confusable_built
              = rspamd_can_alias_latin ch).
  { unfold latin_confusable_built, rspamd_can_alias_latin.
    rewrite existsb_insert_all. cbn [existsb]. apply orb_false_r. }
  unfold rspamd_can_alias_latin_ht. cbv zeta. rewrite E.
  split; [reflexivity|]. split; [reflexivity|]. split.
  - unfold latin_confusable_built. apply insert_all_NoDup. constructor.
  - intro k.
    assert (Hk : existsb (Z.eqb k) latin_confusable_built
                 = existsb (Z.eqb k) latin_confusable).
    { unfold latin_confusable_built. rewrite existsb_insert_all.
      cbn [existsb]. apply orb_false_r. }
    split; intro Hin.
    + assert (Ht : existsb (Z.eqb k) latin_confusable_built = true).
      { apply existsb_exists. exists k. split; [exact Hin | apply Z.eqb_refl]. }
      rewrite Hk in Ht. apply existsb_exists in Ht.
      destruct Ht as (x & Hx & Hxk). apply Z.eqb_eq in Hxk. subst x. exact Hx.
    + assert (Ht : existsb (Z.eqb k) latin_confusable = true).
      { apply existsb_exists. exists k. split; [exact Hin | apply Z.eqb_refl]. }
      rewrite <- Hk in Ht. apply existsb_exists in Ht.
      destruct Ht as (x & Hx & Hxk). apply Z.eqb_eq in Hxk. subst x. exact Hx.
Qed.

(** ** The hostname sum while it stays within 2 *)





